(** * Cascade Folder Permissions: a shallow embedding of
      [scripts/cascade-permissions.js] and the properties of its cascade core.

    The definitions come first:
    - [JS]      the fragment of the JavaScript runtime the script relies on
                (strings as UTF-16 code units, [Number(string)], binary64
                values, [Set.prototype.has], property assignment on plain
                objects, [Array.prototype.pop]);
    - [Host]    the Foundry objects the script touches (folders, tree nodes,
                documents, the document store) and the events of a run;
    - [Eff]     the effects of the script: a trace of events, the state of
                the store, thrown errors, a traversal that may not end;
    - [Cascade] the submit handler's form-data collection,
                [_cascadeOwnership] and [_getSubfoldersManual];
    - how a run is read (outcome, store calls), the container graph, a
      store that records ownership, and the worlds of the scenarios.
    The lemmas and the properties of the cascade follow. *)

From Stdlib Require Import ZArith NArith List Bool Ascii String Lia Permutation.
From Stdlib Require Import Floats.SpecFloat.
From stdpp Require Import gmap strings list fin_maps.

(* ===================================================================== *)
(** ** The JavaScript runtime fragment                                    *)
(* ===================================================================== *)

Module JS.

Local Open Scope Z_scope.

(** A JavaScript string is a finite sequence of 16-bit code units. *)
Definition jsstring : Type := list N.

(** The code units of an ASCII literal. *)
Definition u16 (s : string) : jsstring :=
  map N_of_ascii (list_ascii_of_string s).

(** A Number value is an IEEE 754 binary64 datum. *)
Definition number : Type := spec_float.

Definition prec : Z := 53.
Definition emax : Z := 1024.

(** The Number value of an integer literal of the script ([0], [1], ...). *)
Definition ofZ (n : Z) : number := binary_normalize prec emax n 0 false.

Definition NaN : number := S754_nan.

(** [StrWhiteSpaceChar]: WhiteSpace (TAB, VT, FF, SP, NBSP, ZWNBSP and the
    Unicode space separators) and LineTerminator (LF, CR, LS, PS). *)
Definition isStrWhiteSpaceChar (c : N) : bool :=
  (existsb (N.eqb c)
     [0x09; 0x0A; 0x0B; 0x0C; 0x0D; 0x20; 0xA0; 0x1680; 0x2028; 0x2029;
      0x202F; 0x205F; 0x3000; 0xFEFF]
   || ((0x2000 <=? c) && (c <=? 0x200A)))%N.

Fixpoint trimStart (s : jsstring) : jsstring :=
  match s with
  | c :: s' => if isStrWhiteSpaceChar c then trimStart s' else s
  | [] => []
  end.

Definition trim (s : jsstring) : jsstring :=
  rev (trimStart (rev (trimStart s))).

(** The value of a digit in the given radix, [None] when the code unit is
    not a digit of that radix. *)
Definition digitValue (radix : Z) (c : N) : option Z :=
  let v :=
    if ((48 <=? c) && (c <=? 57))%N then Some (Z.of_N c - 48)
    else if ((97 <=? c) && (c <=? 102))%N then Some (Z.of_N c - 87)
    else if ((65 <=? c) && (c <=? 70))%N then Some (Z.of_N c - 55)
    else None in
  match v with
  | Some d => if d <? radix then Some d else None
  | None => None
  end.

(** The longest prefix of digits, and what follows it. *)
Fixpoint spanDigits (radix : Z) (s : jsstring) : list Z * jsstring :=
  match s with
  | c :: s' =>
      match digitValue radix c with
      | Some d => let '(ds, r) := spanDigits radix s' in (d :: ds, r)
      | None => ([], s)
      end
  | [] => ([], [])
  end.

(** The mathematical value of a digit sequence. *)
Definition digitsMV (radix : Z) (ds : list Z) : Z :=
  fold_left (fun acc d => acc * radix + d) ds 0.

(** The mathematical value of a [StrUnsignedDecimalLiteral]: infinity, or
    [m * 10 ^ e] for a mantissa [m >= 0] and a decimal exponent [e]. *)
Inductive decimalMV : Type :=
| MVInfinity
| MVDecimal (m e : Z).

Definition isExponentIndicator (c : N) : bool :=
  (N.eqb c 101 || N.eqb c 69)%N.

(** [ExponentPart_opt] at the end of the literal: the decimal exponent, or
    [None] when what is left is not an exponent part. *)
Definition parseExponentPart (s : jsstring) : option Z :=
  match s with
  | [] => Some 0
  | c :: s' =>
      if isExponentIndicator c then
        let '(neg, s'') :=
          match s' with
          | 43%N :: r => (false, r)
          | 45%N :: r => (true, r)
          | _ => (false, s')
          end in
        match spanDigits 10 s'' with
        | ((_ :: _) as ds, []) =>
            Some (if neg : bool then - digitsMV 10 ds else digitsMV 10 ds)
        | _ => None
        end
      else None
  end.

(** [StrUnsignedDecimalLiteral]:
      Infinity
    | DecimalDigits . DecimalDigits_opt ExponentPart_opt
    | . DecimalDigits ExponentPart_opt
    | DecimalDigits ExponentPart_opt *)
Definition parseUnsignedDecimal (s : jsstring) : option decimalMV :=
  if decide (s = u16 "Infinity") then Some MVInfinity
  else
    let '(ip, r1) := spanDigits 10 s in
    let '(fp, r2) :=
      match r1 with
      | 46%N :: r => spanDigits 10 r
      | _ => ([], r1)
      end in
    match ip ++ fp with
    | [] => None
    | ds =>
        match parseExponentPart r2 with
        | Some e => Some (MVDecimal (digitsMV 10 ds) (e - Z.of_nat (length fp)))
        | None => None
        end
    end.

(** The binary64 value nearest to [m * 10 ^ e] (ties to even), with the
    given sign. *)
Definition roundDecimal (neg : bool) (m e : Z) : number :=
  match m with
  | Zpos p =>
      if 0 <=? e
      then binary_round prec emax neg (p * Z.to_pos (10 ^ e)) 0
      else SFdiv prec emax (S754_finite neg p 0)
                           (S754_finite false (Z.to_pos (10 ^ (- e))) 0)
  | _ => S754_zero neg
  end.

(** [StrDecimalLiteral]: an optional sign and an unsigned decimal literal. *)
Definition parseDecimal (s : jsstring) : number :=
  let '(neg, body) :=
    match s with
    | 43%N :: r => (false, r)
    | 45%N :: r => (true, r)
    | _ => (false, s)
    end in
  match parseUnsignedDecimal body with
  | Some MVInfinity => S754_infinity neg
  | Some (MVDecimal m e) => roundDecimal neg m e
  | None => NaN
  end.

(** [NonDecimalIntegerLiteral]: [0x], [0o] or [0b] (either case) followed by
    one or more digits of that radix; it takes no sign. *)
Definition nonDecimalRadix (c : N) : option Z :=
  if (N.eqb c 120 || N.eqb c 88)%N then Some 16
  else if (N.eqb c 111 || N.eqb c 79)%N then Some 8
  else if (N.eqb c 98 || N.eqb c 66)%N then Some 2
  else None.

Definition parseNonDecimal (s : jsstring) : option number :=
  match s with
  | 48%N :: c :: r =>
      match nonDecimalRadix c with
      | Some radix =>
          Some match spanDigits radix r with
               | ((_ :: _) as ds, []) => ofZ (digitsMV radix ds)
               | _ => NaN
               end
      | None => None
      end
  | _ => None
  end.

(** [Number(value)] for a String argument (StringToNumber): white space is
    trimmed, the empty string is [+0], a string that is no
    [StringNumericLiteral] is [NaN]. *)
Definition Number (value : jsstring) : number :=
  match trim value with
  | [] => S754_zero false
  | s =>
      match parseNonDecimal s with
      | Some n => n
      | None => parseDecimal s
      end
  end.

(** SameValueZero on Numbers: [NaN] equals itself, [+0] equals [-0],
    otherwise numeric equality. *)
Definition SameValueZero (x y : number) : bool :=
  match x, y with
  | S754_nan, S754_nan => true
  | _, _ => SFeqb x y
  end.

(** [Set.prototype.has] for a set of Numbers given by its elements. *)
Definition Set_has (elements : list number) (x : number) : bool :=
  existsb (SameValueZero x) elements.

(** A plain object ([{}]) used as a map from property keys to values: its
    own enumerable string-keyed properties. *)
Abbreviation object V := (gmap string V).

(** [o[key] = v] for a primitive [v] on an object created by [{}]. Every
    key defines or overwrites an own property, except ["__proto__"]: that
    assignment reaches the accessor inherited from [Object.prototype],
    which ignores a value that is neither an object nor [null]. *)
Definition set {V} (o : object V) (key : string) (v : V) : object V :=
  if decide (key = "__proto__"%string) then o else <[key := v]> o.

(** [Object.entries(o)]: the own properties as key/value pairs. The order
    of enumeration is the one of [map_to_list]. *)
Definition entries {V} (o : object V) : list (string * V) := map_to_list o.

(** [Object.keys(o).length]. *)
Definition keys_length {V} (o : object V) : nat := length (entries o).

(** [a.pop()] on an array: the last element and the shortened array, or
    [None] for [undefined] on the empty array. *)
Fixpoint pop {A} (a : list A) : option (A * list A) :=
  match a with
  | [] => None
  | [x] => Some (x, [])
  | x :: a' =>
      match pop a' with
      | Some (y, r) => Some (y, x :: r)
      | None => None
      end
  end.

End JS.

Import JS.

(* ===================================================================== *)
(** ** The host objects                                                   *)
(* ===================================================================== *)

Module Host.

(** Object identity: two references are the same object exactly when they
    are equal. *)
Definition ref : Type := nat.

(** An error value thrown by the host. *)
Definition error : Type := string.

(** A document held by a folder; the script reads its [id] only. *)
Record Document : Type := { id : string }.

(** What the script can observe of an object it meets while walking: a
    [Folder] document, a node of the sidebar directory tree
    ([{folder, children, ...}]) or any other object. A property that is
    [null], [undefined] or missing reads as [None]. *)
Record JSObject : Type := {
  instanceofFolder : bool;            (* [o instanceof Folder] *)
  name : string;                      (* [o.name] *)
  documentClass : string;             (* [o.documentClass] *)
  folder : option ref;                (* [o.folder] *)
  children : option (list ref);       (* [o.children], an array of objects *)
  contents : option (list Document);  (* [o.contents] *)
}.

(** The objects of the running world, by reference. *)
Definition heap : Type := ref -> JSObject.

(** The ownership object sent with every update: subject identifier to
    permission level. *)
Abbreviation Ownership := (gmap string number).

(** One element of the batch: [{ _id: d.id, ownership }]. *)
Record Update : Type := { _id : string; ownership : Ownership }.

(** The arguments of the script's [LOG] calls. *)
Inductive LogMessage : Type :=
| LogSkipping (key : string) (value : jsstring)
| LogNothingToApply
| LogOwnershipToApply (o : Ownership)
| LogGetSubfoldersFailed (err : error)
| LogProcessing (folders : nat)
| LogFolder (name : string) (documents : nat)
| LogTotal (documents : nat)
| LogUpdated (documents : nat).

(** The localisation keys of the user notifications, with the data that
    [game.i18n.format] receives. *)
Inductive Notice : Type :=
| NoDocuments
| ErrorCascade
| SuccessCascade (count folders : Z).

(** What an invocation does to the outside, in order. *)
Inductive Event : Type :=
| ConsoleLog (m : LogMessage)                 (* [LOG(...)] *)
| ConsoleError (err : error)                  (* [console.error(..., err)] *)
| CallGetSubfolders (f : ref)                 (* [f.getSubfolders(true)] *)
| ReadContents (f : ref)                      (* [f.contents] *)
| CallUpdateDocuments (cls : string) (updates : list Update)
                                              (* [docClass.updateDocuments(..)] *)
| NotifyInfo (n : Notice)                     (* [ui.notifications.info] *)
| NotifyError (n : Notice).                   (* [ui.notifications.error] *)

(** The world an invocation runs in. [St] is the state of the document
    store. [getSubfolders] either throws ([inl]) or returns the array of
    sub-folders ([inr]); [updateDocuments] changes the store and either
    resolves ([None]) or rejects with an error. *)
Record World (St : Type) : Type := {
  objects : heap;
  getSubfolders : ref -> error + list ref;
  updateDocuments : string -> list Update -> St -> St * option error;
}.
Arguments objects {St} _.
Arguments getSubfolders {St} _ _.
Arguments updateDocuments {St} _ _ _ _.

(** A form control [<select name=... >] with its current value. *)
Record Select : Type := { sel_name : string; sel_value : jsstring }.

End Host.

Import Host.

(* ===================================================================== *)
(** ** Effects: a trace of events and the state of the store              *)
(* ===================================================================== *)

Module Eff.
Section Eff.
Context {St : Type}.

Record State : Type := { trace : list Event; store : St }.

(** How a piece of code completes: normally with a value, or abruptly
    with a thrown error (a rejected promise, under [await]). *)
Inductive Completion (A : Type) : Type :=
| Normal (a : A)
| Throw (err : error).
Arguments Normal {A} _.
Arguments Throw {A} _.

(** A computation changes the state and completes, or does not come to an
    end ([None]: the traversal ran out of fuel). *)
Definition M (A : Type) : Type := State -> option (Completion A * State).

Definition ret {A} (a : A) : M A := fun s => Some (Normal a, s).

Definition bind {A B} (m : M A) (k : A -> M B) : M B :=
  fun s => match m s with
           | Some (Normal a, s') => k a s'
           | Some (Throw err, s') => Some (Throw err, s')
           | None => None
           end.

Definition throw {A} (err : error) : M A := fun s => Some (Throw err, s).

(** [try { body } catch (err) { handler }]. *)
Definition tryCatch {A} (body : M A) (handler : error -> M A) : M A :=
  fun s => match body s with
           | Some (Throw err, s') => handler err s'
           | r => r
           end.

Definition emit (e : Event) : M unit :=
  fun s => Some (Normal tt, {| trace := trace s ++ [e]; store := store s |}).

(** A pure step that may not come to an end. *)
Definition partial {A} (o : option A) : M A :=
  fun s => match o with Some a => Some (Normal a, s) | None => None end.

(** A call into the store: it changes the store, then resolves or
    rejects. *)
Definition withStore (f : St -> St * option error) : M unit :=
  fun s => let '(st, rejected) := f (store s) in
           Some (match rejected with
                 | None => Normal tt
                 | Some err => Throw err
                 end, {| trace := trace s; store := st |}).

(** [for (const x of l) { acc = body(acc, x) }]. *)
Fixpoint forOf {A B} (l : list A) (body : B -> A -> M B) (acc : B) : M B :=
  match l with
  | [] => ret acc
  | x :: l' => bind (body acc x) (forOf l' body)
  end.

End Eff.
Arguments State : clear implicits.
Arguments M : clear implicits.
Arguments Completion : clear implicits.
Arguments Normal {A} _.
Arguments Throw {A} _.
End Eff.

Import Eff.

Declare Scope eff_scope.
Delimit Scope eff_scope with eff.
Notation "'let!' x ':=' m 'in' k" := (bind m (fun x => k))
  (at level 10, x name, m at level 100, k at level 200) : eff_scope.
Notation "'do!' m 'in' k" := (bind m (fun _ => k))
  (at level 10, m at level 100, k at level 200) : eff_scope.

(* ===================================================================== *)
(** ** The script                                                         *)
(* ===================================================================== *)

Module Cascade.

(** [child.folder ?? child]. *)
Definition folderOf (h : heap) (child : ref) : ref :=
  match folder (h child) with
  | Some f => f
  | None => child
  end.

(** [(o.children ?? []).map((c) => c.folder ?? c)], also the sequence the
    inner [for] loop pushes. *)
Definition childFolders (h : heap) (o : ref) : list ref :=
  map (folderOf h) (default [] (children (h o))).

(** The [while (stack.length)] loop of [_getSubfoldersManual]. [fuel]
    bounds the number of iterations. *)
Fixpoint manualLoop (fuel : nat) (h : heap) (stack result : list ref)
  : option (list ref) :=
  match pop stack with
  | None => Some result
  | Some (f, stack') =>
      match fuel with
      | O => None
      | S fuel' =>
          if instanceofFolder (h f)
          then manualLoop fuel' h (stack' ++ childFolders h f) (result ++ [f])
          else manualLoop fuel' h stack' result
      end
  end.

(** Manual fallback to collect sub-folders if getSubfolders is
    unavailable. *)
Definition _getSubfoldersManual (fuel : nat) (h : heap) (root : ref)
  : option (list ref) :=
  manualLoop fuel h (childFolders h root) [].

Definition VALID_LEVELS : list number :=
  [ofZ 0; ofZ 1; ofZ 2; ofZ 3]%Z.

(** The form data the submit handler reads from the [<select>] elements:
    [if (sel.name) formData[sel.name] = sel.value]. *)
Definition collectFormData (selects : list Select) : JS.object jsstring :=
  fold_left
    (fun formData sel =>
       if decide (sel_name sel = EmptyString) then formData
       else JS.set formData (sel_name sel) (sel_value sel))
    selects ∅.

Section Script.
Context {St : Type}.
Variable w : World St.

Local Open Scope eff_scope.

(** The first loop of [_cascadeOwnership]: build the ownership object
    from the form data. *)
Definition buildOwnership (formData : JS.object jsstring) : M St Ownership :=
  forOf (JS.entries formData)
    (fun ownership '(key, value) =>
       let level := Number value in
       if negb (Set_has VALID_LEVELS level)
       then do! emit (ConsoleLog (LogSkipping key value)) in ret ownership
       else ret (JS.set ownership key level))
    ∅.

(** [folder.getSubfolders(true)]. *)
Definition callGetSubfolders (folder : ref) : M St (list ref) :=
  do! emit (CallGetSubfolders folder) in
  match getSubfolders w folder with
  | inr subs => ret subs
  | inl err => throw err
  end.

(** [await docClass.updateDocuments(allUpdates)]. *)
Definition callUpdateDocuments (docClass : string) (allUpdates : list Update)
  : M St unit :=
  do! emit (CallUpdateDocuments docClass allUpdates) in
  withStore (updateDocuments w docClass allUpdates).

(** "Collect all folders in the tree: the target folder + all
    descendants". *)
Definition collectFolders (fuel : nat) (folder : ref) : M St (list ref) :=
  let allFolders := [folder] in
  tryCatch
    (let! subs := callGetSubfolders folder in
     ret (allFolders ++ subs))
    (fun err =>
       do! emit (ConsoleLog (LogGetSubfoldersFailed err)) in
       let! manual := partial (_getSubfoldersManual fuel (objects w) folder) in
       ret (allFolders ++ manual)).

(** "Collect ALL documents across every folder in the tree". *)
Definition collectUpdates (ownership : Ownership) (allFolders : list ref)
  : M St (list Update) :=
  forOf allFolders
    (fun allUpdates f =>
       do! emit (ReadContents f) in
       let docs := default [] (contents (objects w f)) in
       do! emit (ConsoleLog (LogFolder (name (objects w f)) (length docs))) in
       forOf docs
         (fun allUpdates d =>
            ret (allUpdates ++ [{| _id := id d; ownership := ownership |}]))
         allUpdates)
    [].

(** Apply ownership to every document inside the target folder and all of
    its sub-folders. The two early [return]s and the [return] of the
    [catch] block end the invocation; the last notification is reached
    only when the [try] block completed. *)
Definition _cascadeOwnership (fuel : nat) (folder : ref)
    (formData : JS.object jsstring) : M St unit :=
  let! ownership := buildOwnership formData in
  if Nat.eqb (JS.keys_length ownership) 0 then
    do! emit (ConsoleLog LogNothingToApply) in
    ret tt
  else
    do! emit (ConsoleLog (LogOwnershipToApply ownership)) in
    let! allFolders := collectFolders fuel folder in
    do! emit (ConsoleLog (LogProcessing (length allFolders))) in
    let docClass := documentClass (objects w folder) in
    let! allUpdates := collectUpdates ownership allFolders in
    do! emit (ConsoleLog (LogTotal (length allUpdates))) in
    if Nat.eqb (length allUpdates) 0 then
      do! emit (NotifyInfo NoDocuments) in
      ret tt
    else
      let! updated :=
        tryCatch
          (do! callUpdateDocuments docClass allUpdates in
           do! emit (ConsoleLog (LogUpdated (length allUpdates))) in
           ret true)
          (fun err =>
             do! emit (ConsoleError err) in
             do! emit (NotifyError ErrorCascade) in
             ret false) in
      if updated : bool then
        emit (NotifyInfo
                (SuccessCascade (Z.of_nat (length allUpdates))
                                (Z.of_nat (length allFolders) - 1)%Z))
      else ret tt.

End Script.
End Cascade.

Import Cascade.


(* ===================================================================== *)
(** ** Reading an invocation                                              *)
(* ===================================================================== *)

(** The ownership object that [_cascadeOwnership] builds from the form
    data, read off the run of its first loop. *)
Definition normalize (formData : JS.object jsstring) : Ownership :=
  match buildOwnership (St := unit) formData {| trace := []; store := tt |} with
  | Some (Normal ownership, _) => ownership
  | _ => ∅
  end.

(** A Number is a concrete permission level when it is numerically equal
    to 0 (None), 1 (Limited), 2 (Observer) or 3 (Owner). *)
Definition isPermissionLevel (x : number) : Prop :=
  ∃ n : Z, (0 <= n <= 3)%Z ∧ SFeqb x (ofZ n) = true.

(** The ways an invocation reports its result. *)
Inductive Outcome : Type :=
| NothingToApply
| NoDocumentsFound
| Success (itemCount subfolderCount : Z)
| Failure (err : error).

(** The outcome an invocation reported: its last report. *)
Definition outcome (tr : list Event) : option Outcome :=
  match rev tr with
  | ConsoleLog LogNothingToApply :: _ => Some NothingToApply
  | NotifyInfo NoDocuments :: _ => Some NoDocumentsFound
  | NotifyInfo (SuccessCascade count folders) :: _ => Some (Success count folders)
  | NotifyError ErrorCascade :: ConsoleError err :: _ => Some (Failure err)
  | _ => None
  end.

(** The batches sent to the store. *)
Definition storeCalls (tr : list Event) : list (string * list Update) :=
  flat_map (fun e => match e with
                     | CallUpdateDocuments cls us => [(cls, us)]
                     | _ => []
                     end) tr.

(** The events of a traversal: folder enumeration and reads of folder
    contents. *)
Definition isTraversal (e : Event) : bool :=
  match e with
  | CallGetSubfolders _ | ReadContents _ => true
  | _ => false
  end.

Definition isConsoleLog (e : Event) : bool :=
  match e with
  | ConsoleLog _ => true
  | _ => false
  end.

(** The invocation started in [s] returns normally (its promise is
    fulfilled) and leaves the state [s']. *)
Definition Returns {St} (w : World St) (folder : ref)
    (formData : JS.object jsstring) (s s' : State St) : Prop :=
  ∃ n, ∀ fuel, (n ≤ fuel) →
    _cascadeOwnership w fuel folder formData s = Some (Normal tt, s').

(** The state after the events [tr] and with the store [st]. *)
Definition after {St} (s : State St) (tr : list Event) (st : St) : State St :=
  {| trace := trace s ++ tr; store := st |}.

(** The level a raw value stands for, when it is a concrete one. *)
Definition levelOf (value : jsstring) : option number :=
  let level := Number value in
  if Set_has VALID_LEVELS level then Some level else None.

(** One iteration of the loop, on the ownership object and on the log. *)
Definition assign (o : Ownership) (kv : string * jsstring) : Ownership :=
  match levelOf kv.2 with
  | Some level => JS.set o kv.1 level
  | None => o
  end.

Definition skipped (kv : string * jsstring) : list Event :=
  match levelOf kv.2 with
  | Some _ => []
  | None => [ConsoleLog (LogSkipping kv.1 kv.2)]
  end.

(* ===================================================================== *)
(** ** The container graph *)
(* ===================================================================== *)

Section Graph.
Variable h : heap.

(** The child containers of [f]: the entries of its [children], resolved
    as the script resolves them, that are folders. *)
Definition subfolders (f : ref) : list ref :=
  filter (λ c, instanceofFolder (h c) = true) (childFolders h f).

(** A child-container edge. *)
Definition edge (f c : ref) : Prop := c ∈ subfolders f.

(** Every chain of child-container edges that starts at [f] has at most
    [d] edges. *)
Fixpoint depthWithin (d : nat) (f : ref) : bool :=
  match d with
  | O => match subfolders f with [] => true | _ => false end
  | S d' => forallb (depthWithin d') (subfolders f)
  end.

(** The containers below [f], down to depth [d], in the order in which
    the stack discipline of the manual walk meets them: the last child
    first, each container followed by what is below it. *)
Fixpoint descendants (d : nat) (f : ref) : list ref :=
  match d with
  | O => []
  | S d' => reverse (subfolders f) ≫= λ c, c :: descendants d' c
  end.

(** A tree below [root]: no container lists a child twice and no
    container has two parents. *)
Record IsTree (root : ref) : Prop := {
  tree_children_distinct : ∀ f, rtc edge root f → NoDup (subfolders f);
  tree_single_parent : ∀ f g c,
    rtc edge root f → rtc edge root g → edge f c → edge g c → f = g;
}.

(** A folder from which a cycle of child-container edges can be reached. *)
Definition reachesCycle (v : ref) : Prop :=
  ∃ f, rtc edge v f ∧ tc edge f f.

End Graph.

(* ===================================================================== *)
(** ** What an invocation is expected to do *)
(* ===================================================================== *)

Section Expected.
Context {St : Type}.
Variable w : World St.

(** The folders an invocation collects: the folder itself followed by
    what [getSubfolders] returns or, when that call throws, by what the
    manual walk finds in a graph of bounded depth. *)
Inductive Collects (folder : ref) : list ref → Prop :=
| Collects_primary subs :
    getSubfolders w folder = inr subs →
    Collects folder (folder :: subs)
| Collects_fallback err d :
    getSubfolders w folder = inl err →
    depthWithin (objects w) d folder = true →
    Collects folder (folder :: descendants (objects w) d folder).

(** The events of the enumeration. *)
Definition enumeration (folder : ref) : list Event :=
  CallGetSubfolders folder ::
  match getSubfolders w folder with
  | inl err => [ConsoleLog (LogGetSubfoldersFailed err)]
  | inr _ => []
  end.

(** The documents of a folder, an empty or missing list counting for
    none. *)
Definition documentsOf (f : ref) : list Document :=
  default [] (contents (objects w f)).

(** One update per document of every collected folder. *)
Definition updatesOf (o : Ownership) (fs : list ref) : list Update :=
  flat_map (λ f, map (λ d, {| _id := id d; ownership := o |}) (documentsOf f)) fs.

(** The events of the flattening loop. *)
Definition reading (fs : list ref) : list Event :=
  flat_map (λ f, [ReadContents f;
                  ConsoleLog (LogFolder (name (objects w f))
                                        (length (documentsOf f)))]) fs.

(** Everything an invocation does before it decides what to report. *)
Definition prologue (folder : ref) (formData : JS.object jsstring)
    (fs : list ref) : list Event :=
  flat_map skipped (JS.entries formData)
  ++ [ConsoleLog (LogOwnershipToApply (normalize formData))]
  ++ enumeration folder
  ++ [ConsoleLog (LogProcessing (length fs))]
  ++ reading fs
  ++ [ConsoleLog (LogTotal (length (updatesOf (normalize formData) fs)))].

(** What the invocation does once it has its batch. *)
Definition submission (folder : ref) (formData : JS.object jsstring)
    (fs : list ref) (st : St) : list Event * St :=
  let us := updatesOf (normalize formData) fs in
  let cls := documentClass (objects w folder) in
  match us with
  | [] => ([NotifyInfo NoDocuments], st)
  | _ =>
      let '(st', rejected) := updateDocuments w cls us st in
      (CallUpdateDocuments cls us ::
       match rejected with
       | None =>
           [ConsoleLog (LogUpdated (length us));
            NotifyInfo (SuccessCascade (Z.of_nat (length us))
                                       (Z.of_nat (length fs) - 1)%Z)]
       | Some err => [ConsoleError err; NotifyError ErrorCascade]
       end, st')
  end.

End Expected.

(* ===================================================================== *)
(** ** A store that records the ownership of every document *)
(* ===================================================================== *)

Section RecordingStore.

(** How the store combines the ownership sent with an update ([new]) with
    the ownership it holds for the document ([old]). *)
Variable merge : Ownership → Ownership → Ownership.

Definition applyUpdate (σ : gmap string Ownership) (u : Update)
  : gmap string Ownership :=
  alter (merge (ownership u)) (_id u) σ.

(** The batch call: every update in order; it always resolves. *)
Definition recordingStore (cls : string) (us : list Update)
    (σ : gmap string Ownership) : gmap string Ownership * option error :=
  (fold_left applyUpdate us σ, None).

Definition recordingWorld (h : heap) (gs : ref → error + list ref)
  : World (gmap string Ownership) :=
  {| objects := h; getSubfolders := gs; updateDocuments := recordingStore |}.

End RecordingStore.

(** The store overwrites the ownership it holds. *)
Definition overwrite (new old : Ownership) : Ownership := new.

(* ===================================================================== *)
(** ** Worlds of the scenarios                                            *)
(* ===================================================================== *)

Definition folderObject (name : string) (parent : option ref)
    (children : list ref) (contents : option (list Document)) : JSObject :=
  {| instanceofFolder := true; name := name; documentClass := "Item";
     folder := parent; children := Some children; contents := contents |}.

(** A node of the directory tree: [{ folder, children, ... }]. *)
Definition treeNode (target : ref) (children : list ref) : JSObject :=
  {| instanceofFolder := false; name := EmptyString; documentClass := EmptyString;
     folder := Some target; children := Some children; contents := None |}.

Definition otherObject : JSObject :=
  {| instanceofFolder := false; name := EmptyString; documentClass := EmptyString;
     folder := None; children := None; contents := None |}.

Definition document (i : string) : Document := {| id := i |}.

(** Scenario B: a root with two items, a sub-folder with three, a
    sub-sub-folder with none. References 10 and 11 are the tree nodes
    through which [children] lists the sub-folders. *)
Definition scenarioB : heap := fun r =>
  match r with
  | 0 => folderObject "Root" None [10]
           (Some [document "a"; document "b"])
  | 1 => folderObject "Sub" (Some 0) [11]
           (Some [document "c"; document "d"; document "e"])
  | 2 => folderObject "SubSub" (Some 1) [] None
  | 10 => treeNode 1 [11]
  | 11 => treeNode 2 []
  | _ => otherObject
  end.

(** The same shape with no document anywhere. *)
Definition emptyTree : heap := fun r =>
  match r with
  | 0 => folderObject "Root" None [10] (Some [])
  | 1 => folderObject "Sub" (Some 0) [] None
  | 10 => treeNode 1 []
  | _ => otherObject
  end.

(** Two folders that list each other as child. *)
Definition cyclic : heap := fun r =>
  match r with
  | 0 => folderObject "A" None [10] None
  | 1 => folderObject "B" (Some 0) [11] None
  | 10 => treeNode 1 [11]
  | 11 => treeNode 0 [10]
  | _ => otherObject
  end.

Definition noGetSubfolders : ref → error + list ref :=
  fun _ => inl "folder.getSubfolders is not a function"%string.

Definition scenarioB_getSubfolders : ref → error + list ref :=
  fun r => match r with
           | 0 => inr [1; 2]
           | 1 => inr [2]
           | _ => inr []
           end.

Definition resolves : string → list Update → unit → unit * option error :=
  fun _ _ st => (st, None).

Definition rejects (err : error)
  : string → list Update → unit → unit * option error :=
  fun _ _ st => (st, Some err).

Definition select (n : string) (v : string) : Select :=
  {| sel_name := n; sel_value := u16 v |}.

(** Scenario A: [{"default": "2", "user1": "-1"}]. *)
Definition scenarioA : list Select :=
  [select "default" "2"; select "user1" "-1"].

Definition start {St} (st : St) : State St := {| trace := []; store := st |}.

Definition scenarioB_primary : World unit :=
  {| objects := scenarioB; getSubfolders := scenarioB_getSubfolders;
     updateDocuments := resolves |}.

Definition scenarioB_fallback : World unit :=
  {| objects := scenarioB; getSubfolders := noGetSubfolders;
     updateDocuments := resolves |}.

Definition scenarioE : World unit :=
  {| objects := scenarioB; getSubfolders := scenarioB_getSubfolders;
     updateDocuments := rejects "the server refused the update" |}.

Definition emptyTree_world : World unit :=
  {| objects := emptyTree; getSubfolders := noGetSubfolders;
     updateDocuments := resolves |}.

(** Scenario B's assignment [{"default": 3}], as form data. *)
Definition ownerForAll : JS.object jsstring :=
  collectFormData [select "default" "3"].

(** Scenario C: every value a sentinel. *)
Definition scenarioC : JS.object jsstring :=
  collectFormData [select "default" "-1"; select "user1" "-10";
                   select "user2" "inherit"].

(* ===================================================================== *)
(** ** More worlds                                                        *)
(* ===================================================================== *)

(** The folders an invocation collects with the given fuel, when the
    enumeration comes to an end. *)
Definition collected {St} (w : World St) (fuel : nat) (folder : ref)
  : option (list ref) :=
  match getSubfolders w folder with
  | inr subs => Some (folder :: subs)
  | inl _ => cons folder <$> _getSubfoldersManual fuel (objects w) folder
  end.

(** A folder reached through two parents: 0 lists 1 and 2, and both list
    3. References 11, 12 and 13 are the tree nodes. *)
Definition diamond : heap := fun r =>
  match r with
  | 0 => folderObject "Root" None [11; 12] None
  | 1 => folderObject "Left" (Some 0) [13] None
  | 2 => folderObject "Right" (Some 0) [13] None
  | 3 => folderObject "Shared" (Some 1) [] (Some [document "x"])
  | 11 => treeNode 1 [13]
  | 12 => treeNode 2 [13]
  | 13 => treeNode 3 []
  | _ => otherObject
  end.

(** A folder whose [children] holds the sub-folder document itself, not a
    tree node; the sub-folder's own [folder] property is its parent. *)
Definition folderChildren : heap := fun r =>
  match r with
  | 0 => folderObject "Root" None [1] None
  | 1 => folderObject "Sub" (Some 0) [] None
  | _ => otherObject
  end.

(* ===================================================================== *)
(** ** The submit listener                                                *)
(* ===================================================================== *)

Module Handler.

(** The arguments of the listener's own [LOG] calls. *)
Inductive HandlerLog : Type :=
| LogFormSubmitted (cascade : option bool) (folderName : option string)
| LogFormData (formData : JS.object jsstring).

(** What a submission does, in order: the listener's logs, the timer it
    awaits, and the events of the cascade it starts. *)
Inductive HandlerEvent : Type :=
| HandlerConsoleLog (m : HandlerLog)
| SetTimeout (ms : nat)
| Cascade (e : Event).

(** [doc instanceof Folder], for a [doc] that may be [undefined]. *)
Definition isFolderDocument (h : heap) (doc : option ref) : bool :=
  match doc with
  | Some d => instanceofFolder (h d)
  | None => false
  end.

(** The listener attached to the form's [submit] event. [checkbox] is
    [checkbox?.checked]: [None] when the form holds no such input. *)
Definition onSubmit {St} (w : World St) (fuel : nat) (checkbox : option bool)
    (doc : option ref) (selects : list Select) (st : St)
  : option (Completion unit * list HandlerEvent * St) :=
  let shouldCascade := checkbox in
  let submitted :=
    HandlerConsoleLog
      (LogFormSubmitted shouldCascade (name ∘ objects w <$> doc)) in
  if negb (default false shouldCascade)
     || negb (isFolderDocument (objects w) doc)
  then Some (Normal tt, [submitted], st)
  else
    match doc with
    | None => Some (Normal tt, [submitted], st)
    | Some folder =>
        let formData := collectFormData selects in
        match _cascadeOwnership w fuel folder formData
                {| trace := []; store := st |} with
        | Some (c, s') =>
            Some (c,
                  [submitted; HandlerConsoleLog (LogFormData formData);
                   SetTimeout 250] ++ map Cascade (trace s'),
                  store s')
        | None => None
        end
    end.

End Handler.

Import Handler.

(* ===================================================================== *)
(** ** The release tool: command-line arguments                           *)
(* ===================================================================== *)

Module BuildTool.

(** The value of an option: the argument that follows it, or [true]. *)
Inductive ArgValue : Type :=
| ArgString (s : string)
| ArgTrue.

(** [s.startsWith('--')]. *)
Definition startsWithDashes (s : string) : bool := String.prefix "--" s.

(** [s.slice(n)]: [s] without its first [n] code units. *)
Fixpoint slice (n : nat) (s : string) : string :=
  match n, s with
  | S n', String _ s' => slice n' s'
  | _, _ => s
  end.

(** A string is truthy when it is not empty. *)
Definition truthy (s : string) : bool :=
  match s with
  | EmptyString => false
  | _ => true
  end.

(** The [for] loop of [parseArgs], on the arguments from index [i] on:
    an argument that does not start with two dashes is passed over; an
    option takes the next argument as value, and steps over it, when
    there is one that is not empty and is no option itself. *)
Fixpoint parseLoop (rest : list string) (out : JS.object ArgValue)
  : JS.object ArgValue :=
  match rest with
  | [] => out
  | a :: rest' =>
      if negb (startsWithDashes a) then parseLoop rest' out
      else
        let key := slice 2 a in
        match rest' with
        | next :: rest'' =>
            if truthy next && negb (startsWithDashes next)
            then parseLoop rest'' (JS.set out key (ArgString next))
            else parseLoop rest' (JS.set out key ArgTrue)
        | [] => parseLoop rest' (JS.set out key ArgTrue)
        end
  end.

(** [parseArgs(argv)]: the loop starts at index 2. *)
Definition parseArgs (argv : list string) : JS.object ArgValue :=
  parseLoop (drop 2 argv) ∅.

(** A command line for a list of options: [--key value] or [--key]. *)
Definition commandLine (options : list (string * ArgValue)) : list string :=
  flat_map (fun '(key, v) =>
              match v with
              | ArgString s => [String.append "--" key; s]
              | ArgTrue => [String.append "--" key]
              end) options.

(** An option that a command line can carry as written. *)
Definition writable (opt : string * ArgValue) : Prop :=
  opt.1 ≠ "__proto__"%string
  ∧ match opt.2 with
    | ArgString s => truthy s = true ∧ startsWithDashes s = false
    | ArgTrue => True
    end.

(** *** The names and addresses of a release ([main]) *)

(** What [main] reads of [module.json]; a missing field is [None]. *)
Record ModuleJson : Type := {
  mod_id : option string;
  mod_version : option string;
  mod_url : option string;
}.

(** Truthiness of a value read from [args] or from [module.json];
    [None] is [undefined]. *)
Definition truthyValue (v : option ArgValue) : bool :=
  match v with
  | Some (ArgString s) => truthy s
  | Some ArgTrue => true
  | None => false
  end.

(** [a || d] for a right operand that is a value. *)
Definition orDefault (a : option ArgValue) (d : ArgValue) : ArgValue :=
  match a with
  | Some v => if truthyValue a then v else d
  | None => d
  end.

(** The text of a value inside a template literal. *)
Definition toString (v : ArgValue) : string :=
  match v with
  | ArgString s => s
  | ArgTrue => "true"
  end.

(** [url.replace(/^https?:\/\/github\.com\//, '')]: the pattern matches
    at the start only, the text [http], an optional [s] and
    [://github.com/]; the match is removed. *)
Definition stripGitHub (url : string) : string :=
  if String.prefix "https://github.com/" url then slice 19 url
  else if String.prefix "http://github.com/" url then slice 18 url
  else url.

(** [s.replace(/\/$/, '')]: a slash at the very end is removed. *)
Fixpoint stripTrailingSlash (s : string) : string :=
  match s with
  | EmptyString => EmptyString
  | String c EmptyString => if Ascii.eqb c "/" then EmptyString else s
  | String c s' => String c (stripTrailingSlash s')
  end.

(** The last code unit of a string. *)
Fixpoint lastChar (s : string) : option ascii :=
  match s with
  | EmptyString => None
  | String c EmptyString => Some c
  | String _ s' => lastChar s'
  end.

Definition defaultRepo : string := "bruceamoser/svellheim-character-options".

(** [repoFromUrl]. *)
Definition repoFromUrl (modJson : ModuleJson) : string :=
  stripTrailingSlash (stripGitHub (default EmptyString (mod_url modJson))).

(** [args.repo || repoFromUrl || '...']. *)
Definition repoOf (args : JS.object ArgValue) (modJson : ModuleJson) : ArgValue :=
  orDefault (args !! "repo"%string)
    (if truthy (repoFromUrl modJson) then ArgString (repoFromUrl modJson)
     else ArgString defaultRepo).

Definition manifestUrl (repo : ArgValue) : string :=
  "https://github.com/" +:+ toString repo
  +:+ "/releases/latest/download/module.json".


Definition projectUrl (repo : ArgValue) : string :=
  "https://github.com/" +:+ toString repo.



End BuildTool.

Import BuildTool.

(* ===================================================================== *)
(** * Lemmas *)
(* ===================================================================== *)

(* ===================================================================== *)
(** ** Numbers and permission levels                                      *)
(* ===================================================================== *)

Section Numbers.

Lemma trimStart_whitespace (s : jsstring) :
  forallb isStrWhiteSpaceChar s = true → trimStart s = [].
Proof.
  induction s as [|c s IH]; simpl; [done|].
  intros [Hc Hs]%andb_prop. rewrite Hc. auto.
Qed.

Lemma trim_whitespace (s : jsstring) :
  forallb isStrWhiteSpaceChar s = true → trim s = [].
Proof.
  intros H. unfold trim. by rewrite (trimStart_whitespace s H).
Qed.

Lemma Number_whitespace (s : jsstring) :
  forallb isStrWhiteSpaceChar s = true → Number s = S754_zero false.
Proof.
  intros H. unfold Number. by rewrite (trim_whitespace s H).
Qed.

Lemma SameValueZero_level (x : number) (n : Z) :
  (0 <= n <= 3)%Z → SameValueZero x (ofZ n) = SFeqb x (ofZ n).
Proof.
  intros Hn.
  assert (n = 0 ∨ n = 1 ∨ n = 2 ∨ n = 3)%Z as [->|[->|[->| ->]]] by lia;
    by destruct x.
Qed.

(** [Number] on values a form can hold: levels, the sentinels of the
    two dialog versions, other spellings of a level, and text. *)
Lemma Number_examples :
  Number (u16 "2") = ofZ 2
  ∧ Number (u16 "-1") = ofZ (-1)
  ∧ Number (u16 "-10") = ofZ (-10)
  ∧ Number (u16 " 3 ") = ofZ 3
  ∧ Number (u16 "3.0") = ofZ 3
  ∧ Number (u16 "30e-1") = ofZ 3
  ∧ Number (u16 "0x3") = ofZ 3
  ∧ Number (u16 "4") = ofZ 4
  ∧ Number (u16 "1.5") = S754_finite false 6755399441055744 (-52)
  ∧ Number (u16 "0.1") = S754_finite false 7205759403792794 (-56)
  ∧ Number (u16 "1e-400") = S754_zero false
  ∧ Number (u16 "-0") = S754_zero true
  ∧ Number (u16 "1e400") = S754_infinity false
  ∧ Number (u16 "-Infinity") = S754_infinity true
  ∧ Number (u16 "inherit") = NaN
  ∧ Number (u16 "1 2") = NaN
  ∧ Number (u16 "-0x3") = NaN
  ∧ Number (u16 "3n") = NaN
  ∧ Number [0xFEFF; 0x33; 0x2003]%N = ofZ 3.
Proof. by vm_compute. Qed.

(** [VALID_LEVELS.has(x)] holds exactly for the concrete levels. *)
Lemma VALID_LEVELS_has (x : number) :
  Set_has VALID_LEVELS x = true ↔ isPermissionLevel x.
Proof.
  unfold Set_has, VALID_LEVELS, isPermissionLevel. cbn [existsb].
  rewrite !orb_true_iff, !SameValueZero_level by lia. split.
  - intros [H|[H|[H|[H|H]]]];
      [exists 0%Z|exists 1%Z|exists 2%Z|exists 3%Z|done];
      (split; [lia | done]).
  - intros (n & Hn & Heq).
    assert (n = 0 ∨ n = 1 ∨ n = 2 ∨ n = 3)%Z as [->|[->|[->| ->]]] by lia;
      auto.
Qed.

End Numbers.

(* ===================================================================== *)
(** ** The first loop: from form data to the ownership object *)
(* ===================================================================== *)

(** Two states are equal when their traces are equal up to the nesting of
    appends. *)
Ltac same_trace :=
  unfold after, ret, emit; cbn [trace store fst snd];
  repeat (progress (rewrite <- ?app_assoc; cbn [app]));
  reflexivity.

Section Normalization.

Lemma after_nil {St} (s : State St) : after s [] (store s) = s.
Proof. destruct s. unfold after. simpl. by rewrite app_nil_r. Qed.

Lemma after_after {St} (s : State St) tr1 st1 tr2 st2 :
  after (after s tr1 st1) tr2 st2 = after s (tr1 ++ tr2) st2.
Proof. unfold after. simpl. by rewrite app_assoc. Qed.

Lemma buildOwnership_run {St} (formData : JS.object jsstring) (s : State St) :
  buildOwnership formData s =
  Some (Normal (fold_left assign (JS.entries formData) ∅),
        after s (flat_map skipped (JS.entries formData)) (store s)).
Proof.
  unfold buildOwnership. generalize (∅ : Ownership).
  revert s. induction (JS.entries formData) as [|[k v] es IH]; intros s o.
  - simpl. by rewrite after_nil.
  - cbn [forOf fold_left flat_map]. unfold bind at 1.
    unfold assign at 2, skipped at 1, levelOf. cbn [fst snd].
    destruct (Set_has VALID_LEVELS (Number v)); cbn.
    + by rewrite IH.
    + rewrite IH. f_equal. f_equal. unfold after. simpl.
      by rewrite <- app_assoc.
Qed.

Lemma normalize_fold (formData : JS.object jsstring) :
  normalize formData = fold_left assign (JS.entries formData) ∅.
Proof. unfold normalize. by rewrite buildOwnership_run. Qed.

Lemma set_lookup {V} (o : JS.object V) (key k : string) (v : V) :
  JS.set o key v !! k =
  if decide (key = k ∧ key ≠ "__proto__"%string) then Some v else o !! k.
Proof.
  unfold JS.set. destruct (decide (key = "__proto__"%string)) as [->|Hk].
  - case_decide; [tauto | done].
  - rewrite lookup_insert. repeat case_decide; tauto || done.
Qed.

Lemma fold_assign_lookup (es : list (string * jsstring)) (o : Ownership)
    (k : string) :
  NoDup es.*1 →
  fold_left assign es o !! k =
  match (if decide (k = "__proto__"%string) then None
         else (list_to_map es : gmap string jsstring) !! k ≫= levelOf) with
  | Some level => Some level
  | None => o !! k
  end.
Proof.
  revert o. induction es as [|[k0 v0] es IH]; intros o Hnd.
  - simpl. case_decide; by rewrite ?lookup_empty.
  - apply NoDup_cons in Hnd as [Hk0 Hnd]. cbn [fold_left].
    rewrite (IH _ Hnd). cbn [list_to_map foldr].
    unfold assign at 1. cbn [fst snd].
    destruct (decide (k = "__proto__"%string)) as [->|Hk].
    + destruct (levelOf v0); [|done]. rewrite set_lookup.
      case_decide; [tauto | done].
    + destruct (decide (k0 = k)) as [->|Hne].
      * rewrite lookup_insert_eq. cbn.
        rewrite (not_elem_of_list_to_map_1 es k Hk0). cbn.
        destruct (levelOf v0); [|done]. rewrite set_lookup.
        case_decide; [done | tauto].
      * rewrite lookup_insert_ne by done.
        destruct (list_to_map es !! k ≫= levelOf); [done|].
        destruct (levelOf v0); [|done]. rewrite set_lookup.
        case_decide; [tauto | done].
Qed.

(** The ownership object, key by key, for any object passed as form
    data. *)
Lemma normalize_lookup (formData : JS.object jsstring) (k : string) :
  normalize formData !! k =
  if decide (k = "__proto__"%string) then None
  else formData !! k ≫= levelOf.
Proof.
  rewrite normalize_fold. unfold JS.entries.
  rewrite fold_assign_lookup by apply NoDup_fst_map_to_list.
  rewrite list_to_map_to_list, lookup_empty.
  case_decide; [done|]. by destruct (formData !! k ≫= levelOf).
Qed.

(** The handler never stores a control named ["__proto__"]. *)
Lemma collectFormData_proto (selects : list Select) :
  collectFormData selects !! "__proto__"%string = None.
Proof.
  unfold collectFormData.
  assert (H : (∅ : gmap string jsstring) !! "__proto__"%string = None)
    by apply lookup_empty.
  revert H. generalize (∅ : gmap string jsstring).
  induction selects as [|sel selects IH]; intros o Ho; [done|].
  cbn [fold_left]. apply IH. case_decide; [done|].
  rewrite set_lookup. case_decide; [tauto | done].
Qed.

Lemma levelOf_Some (value : jsstring) (level : number) :
  levelOf value = Some level ↔ Number value = level ∧ isPermissionLevel level.
Proof.
  unfold levelOf. rewrite <- VALID_LEVELS_has.
  destruct (Set_has VALID_LEVELS (Number value)) eqn:E; split.
  - intros [= <-]. done.
  - intros [<- _]. done.
  - done.
  - intros [<- H]. congruence.
Qed.

Lemma keys_length_0 {V} (o : JS.object V) :
  Nat.eqb (JS.keys_length o) 0 = true ↔ o = ∅.
Proof.
  unfold JS.keys_length, JS.entries. rewrite Nat.eqb_eq.
  rewrite length_zero_iff_nil. apply map_to_list_empty_iff.
Qed.

End Normalization.

(* ===================================================================== *)
(** ** The manual traversal *)
(* ===================================================================== *)

Section Traversal.
Variable h : heap.

Lemma pop_snoc {A} (l : list A) (x : A) : pop (l ++ [x]) = Some (x, l).
Proof.
  induction l as [|y l IH]; [done|].
  cbn [app pop]. rewrite IH. by destruct (l ++ [x]) eqn:E; [destruct l|].
Qed.

Lemma pop_None {A} (l : list A) : pop l = None ↔ l = [].
Proof.
  destruct l as [|x l] using rev_ind; [done|].
  rewrite pop_snoc. split; [done|]. by destruct l.
Qed.

Lemma edge_folder f c : edge h f c → instanceofFolder (h c) = true.
Proof. unfold edge, subfolders. by intros [? _]%list_elem_of_filter. Qed.

Lemma edge_child f c : edge h f c → c ∈ childFolders h f.
Proof. unfold edge, subfolders. by intros [_ ?]%list_elem_of_filter. Qed.

Lemma depthWithin_edge d f c :
  depthWithin h d f = true → edge h f c →
  ∃ d', d = S d' ∧ depthWithin h d' c = true.
Proof.
  unfold edge. destruct d as [|d']; simpl.
  - destruct (subfolders h f); [|done]. by intros _ ?%elem_of_nil.
  - rewrite forallb_forall. intros H Hc. exists d'. split; [done|].
    apply H. by apply list_elem_of_In.
Qed.

(** Entries that hold no folder are popped and dropped. *)
Lemma manualLoop_skip (cs : list ref) :
  filter (λ c, instanceofFolder (h c) = true) cs = [] →
  ∀ fuel s res,
    manualLoop (length cs + fuel) h (s ++ cs) res = manualLoop fuel h s res.
Proof.
  induction cs as [|c cs IH] using rev_ind; intros Hf fuel s res.
  - by rewrite app_nil_r.
  - rewrite filter_app in Hf. apply app_eq_nil in Hf as [Hcs Hc].
    replace (length (cs ++ [c]) + fuel) with (S (length cs + fuel))
      by (rewrite length_app; simpl; lia).
    cbn [manualLoop]. rewrite app_assoc, pop_snoc.
    destruct (instanceofFolder (h c)) eqn:E.
    + rewrite filter_cons_True in Hc; done.
    + by apply IH.
Qed.

(** The loop empties the part of the stack above [s] and appends, for
    every folder it held, that folder and what is below it. *)
Lemma manualLoop_entries (d : nat) (cs : list ref) :
  forallb (depthWithin h d)
          (filter (λ c, instanceofFolder (h c) = true) cs) = true →
  ∃ n, ∀ fuel s res,
    manualLoop (n + fuel) h (s ++ cs) res =
    manualLoop fuel h s
      (res ++ (reverse (filter (λ c, instanceofFolder (h c) = true) cs)
               ≫= λ c, c :: descendants h d c)).
Proof.
  revert cs. induction d as [|d IHd].
  all: induction cs as [|c cs IHcs] using rev_ind; intros Hd.
  1, 3: exists 0; intros; cbn; by rewrite !app_nil_r.
  all: rewrite filter_app, forallb_app in Hd; apply andb_prop in Hd as [Hcs Hc].
  all: destruct (IHcs Hcs) as [n Hn].
  all: destruct (instanceofFolder (h c)) eqn:E.
  2, 4: exists (S n); intros fuel s res;
        rewrite filter_app, filter_cons_False, filter_nil, app_nil_r by congruence;
        cbn [Nat.add manualLoop]; rewrite app_assoc, pop_snoc, E; apply Hn.
  all: rewrite filter_cons_True in Hc by done.
  all: cbn [filter forallb list_filter] in Hc; apply andb_prop in Hc as [Hc _].
  - (* a folder with no folder below it *)
    cbn [depthWithin] in Hc.
    destruct (subfolders h c) eqn:Hsub; [|done].
    exists (S (length (childFolders h c) + n)). intros fuel s res.
    rewrite filter_app, filter_cons_True, filter_nil, reverse_app by done.
    cbn [Nat.add manualLoop]. rewrite app_assoc, pop_snoc, E.
    rewrite <- Nat.add_assoc, manualLoop_skip by done.
    rewrite Hn, bind_app, <- !app_assoc. done.
  - (* a folder whose children are within depth [d] *)
    cbn [depthWithin] in Hc.
    destruct (IHd (childFolders h c) Hc) as [m Hm].
    exists (S (m + n)). intros fuel s res.
    rewrite filter_app, filter_cons_True, filter_nil, reverse_app by done.
    cbn [Nat.add manualLoop]. rewrite app_assoc, pop_snoc, E.
    rewrite <- Nat.add_assoc, Hm, Hn, bind_app, <- !app_assoc.
    change (reverse [c]) with [c]. rewrite bind_cons.
    cbn [descendants]. unfold subfolders. by rewrite <- !app_assoc.
Qed.

(** On a graph of bounded depth below [root] the manual walk returns. *)
Lemma manual_returns (d : nat) (root : ref) :
  depthWithin h d root = true →
  ∃ n, ∀ fuel, (n ≤ fuel) →
    _getSubfoldersManual fuel h root = Some (descendants h d root).
Proof.
  intros Hd. unfold _getSubfoldersManual.
  assert (Hend : ∀ fuel res, manualLoop fuel h [] res = Some res)
    by (by intros [|?] ?).
  destruct d as [|d]; cbn [depthWithin descendants] in *.
  - destruct (subfolders h root) eqn:Hsub; [|done].
    exists (length (childFolders h root)). intros fuel Hfuel.
    replace fuel with (length (childFolders h root)
                       + (fuel - length (childFolders h root))) by lia.
    rewrite (manualLoop_skip _ Hsub _ []). apply Hend.
  - destruct (manualLoop_entries d (childFolders h root) Hd) as [n Hn].
    exists n. intros fuel Hfuel.
    replace fuel with (n + (fuel - n)) by lia.
    rewrite (Hn _ []). apply Hend.
Qed.

End Traversal.

(* ===================================================================== *)
(** ** Reachability, cycles and trees *)
(* ===================================================================== *)

Section Reachability.
Variable h : heap.

Lemma reachesCycle_step v :
  reachesCycle h v → ∃ c, edge h v c ∧ reachesCycle h c.
Proof.
  intros (f & Hvf & Hff).
  assert (Hvf' : tc (edge h) v f) by (by eapply tc_rtc_l).
  inversion Hvf' as [? ? Hvc|? c ? Hvc Hcf]; subst.
  - exists f. split; [done|]. exists f. split; [apply rtc_refl | done].
  - exists c. split; [done|]. exists f. split; [by apply tc_rtc | done].
Qed.

(** While the stack holds a folder that reaches a cycle the loop cannot
    come to an end, whatever the fuel. *)
Lemma manualLoop_diverges (fuel : nat) :
  ∀ stack res,
    (∃ v, v ∈ stack ∧ instanceofFolder (h v) = true ∧ reachesCycle h v) →
    manualLoop fuel h stack res = None.
Proof.
  induction fuel as [|fuel IH]; intros stack res (v & Hin & Hv & Hcyc);
    (destruct stack as [|x stack _] using rev_ind;
     [ by apply elem_of_nil in Hin | ]);
    cbn [manualLoop]; rewrite pop_snoc; [done|].
  apply elem_of_app in Hin as [Hin|Hin%list_elem_of_singleton].
  - destruct (instanceofFolder (h x)); apply IH; exists v;
      (split; [|done]); [apply elem_of_app; by left | done].
  - subst x. rewrite Hv. apply IH.
    destruct (reachesCycle_step v Hcyc) as (c & Hvc & Hc).
    exists c. split; [|split].
    + apply elem_of_app. right. by eapply edge_child.
    + by eapply edge_folder.
    + done.
Qed.

(** When a cycle can be reached from a child container of [root] the
    manual walk does not return. *)
Lemma manual_diverges (root : ref) :
  (∃ c, edge h root c ∧ reachesCycle h c) →
  ∀ fuel, _getSubfoldersManual fuel h root = None.
Proof.
  intros (c & Hc & Hcyc) fuel. unfold _getSubfoldersManual.
  apply manualLoop_diverges. exists c. split_and!.
  - by eapply edge_child.
  - by eapply edge_folder.
  - done.
Qed.

(** A chain of edges uses up depth. *)
Lemma depthWithin_tc f x :
  tc (edge h) f x → ∀ d, depthWithin h d f = true →
  ∃ d', (d' < d) ∧ depthWithin h d' x = true.
Proof.
  induction 1 as [f x Hfx|f c x Hfc _ IH]; intros d Hd.
  - destruct (depthWithin_edge h d f x Hd Hfx) as (d' & -> & ?).
    exists d'. split; [lia | done].
  - destruct (depthWithin_edge h d f c Hd Hfc) as (d1 & -> & Hd1).
    destruct (IH d1 Hd1) as (d' & ? & ?). exists d'. split; [lia | done].
Qed.

(** A graph of bounded depth below [f] has no cycle through [f]. *)
Lemma depthWithin_acyclic d f :
  depthWithin h d f = true → ¬ tc (edge h) f f.
Proof.
  induction d as [d IH] using lt_wf_ind. intros Hd Hcyc.
  destruct (depthWithin_tc f f Hcyc d Hd) as (d' & Hlt & Hd').
  exact (IH d' Hlt Hd' Hcyc).
Qed.

(** The walk's listing holds exactly what is below [f]. *)
Lemma elem_of_descendants d f x :
  depthWithin h d f = true →
  x ∈ descendants h d f ↔ tc (edge h) f x.
Proof.
  intros Hd. split.
  - revert f Hd. induction d as [|d IH]; intros f Hd; cbn [descendants].
    + by intros ?%elem_of_nil.
    + intros (c & Hx & Hc)%list_elem_of_bind. rewrite elem_of_reverse in Hc.
      destruct (depthWithin_edge h _ f c Hd Hc) as (d' & [= <-] & Hd').
      apply elem_of_cons in Hx as [->|Hx]; [by apply tc_once|].
      eapply tc_l; [apply Hc | by apply IH].
  - intros Htc. revert d Hd.
    induction Htc as [f x Hfx|f c x Hfc _ IH]; intros d Hd.
    + destruct (depthWithin_edge h d f x Hd Hfx) as (d' & -> & _).
      cbn [descendants]. apply list_elem_of_bind. exists x.
      split; [apply list_elem_of_here | by apply elem_of_reverse_2].
    + destruct (depthWithin_edge h d f c Hd Hfc) as (d' & -> & Hd').
      cbn [descendants]. apply list_elem_of_bind. exists c.
      split; [|by apply elem_of_reverse_2].
      apply list_elem_of_further. by apply IH.
Qed.

(** In a tree two containers above the same container lie on one path. *)
Lemma tree_paths_comparable root c1 c2 x :
  IsTree h root →
  rtc (edge h) root c1 → rtc (edge h) root c2 →
  rtc (edge h) c1 x → rtc (edge h) c2 x →
  rtc (edge h) c1 c2 ∨ rtc (edge h) c2 c1.
Proof.
  intros Ht H1 H2 H1x. revert x H1x.
  apply (rtc_ind_r (λ x, rtc (edge h) c2 x →
                         rtc (edge h) c1 c2 ∨ rtc (edge h) c2 c1)).
  - intros H2x. by right.
  - intros y x H1y Hyx IH H2x.
    apply rtc_inv_r in H2x as [->|(y' & H2y' & Hy'x)].
    + left. by eapply rtc_r.
    + assert (y = y') as <-.
      { eapply (tree_single_parent h root Ht); [| |apply Hyx|apply Hy'x].
        - etrans; [apply H1 | apply H1y].
        - etrans; [apply H2 | apply H2y']. }
      by apply IH.
Qed.

Lemma NoDup_descendants root :
  IsTree h root →
  ∀ d f, rtc (edge h) root f → depthWithin h d f = true →
  NoDup (descendants h d f).
Proof.
  intros Ht. induction d as [|d IH]; intros f Hf Hd; cbn [descendants].
  - constructor.
  - assert (Hkid : ∀ c, c ∈ reverse (subfolders h f) →
              edge h f c ∧ depthWithin h d c = true).
    { intros c Hc. rewrite elem_of_reverse in Hc. split; [done|].
      by destruct (depthWithin_edge h _ f c Hd Hc) as (d' & [= <-] & ?). }
    assert (Hbelow : ∀ c y, c ∈ reverse (subfolders h f) →
              y ∈ c :: descendants h d c → rtc (edge h) c y).
    { intros c y [_ Hdc]%Hkid [->|Hy]%elem_of_cons; [apply rtc_refl|].
      apply tc_rtc. by apply (elem_of_descendants d c y Hdc). }
    assert (Hup : ∀ c1 c2, c1 ∈ reverse (subfolders h f) →
              c2 ∈ reverse (subfolders h f) → rtc (edge h) c1 c2 → c1 = c2).
    { intros c1 c2 [Hfc1 _]%Hkid [Hfc2 _]%Hkid H12.
      apply rtc_inv_r in H12 as [->|(p & H1p & Hpc2)]; [done|].
      assert (p = f) as ->.
      { eapply (tree_single_parent h root Ht); [| |apply Hpc2|apply Hfc2].
        - etrans; [apply Hf|]. eapply rtc_l; [apply Hfc1 | apply H1p].
        - done. }
      destruct (depthWithin_acyclic _ f Hd).
      eapply tc_rtc_r; [apply tc_once, Hfc1 | done]. }
    apply NoDup_bind.
    + intros c1 c2 y Hc1 Hc2 Hy1 Hy2.
      destruct (tree_paths_comparable root c1 c2 y Ht) as [H12|H21].
      * eapply rtc_r; [apply Hf | by apply Hkid].
      * eapply rtc_r; [apply Hf | by apply Hkid].
      * by eapply Hbelow.
      * by eapply Hbelow.
      * by apply Hup.
      * symmetry. by apply Hup.
    + intros c Hc. destruct (Hkid c Hc) as [Hfc Hdc].
      apply NoDup_cons. split.
      * intros Hcc%(elem_of_descendants d c c Hdc).
        by apply (depthWithin_acyclic d c).
      * apply IH; [|done]. by eapply rtc_r.
    + rewrite reverse_Permutation. by apply (tree_children_distinct h root Ht).
Qed.

(** The root followed by the walk's listing: every container of the tree,
    once. *)
Lemma tree_listing root d :
  IsTree h root → depthWithin h d root = true →
  NoDup (root :: descendants h d root) ∧
  ∀ x, x ∈ root :: descendants h d root ↔ rtc (edge h) root x.
Proof.
  intros Ht Hd. split.
  - apply NoDup_cons. split.
    + intros Hc%(elem_of_descendants d root root Hd).
      by apply (depthWithin_acyclic d root).
    + eapply NoDup_descendants; [done | apply rtc_refl | done].
  - intros x. rewrite elem_of_cons, (elem_of_descendants d root x Hd), rtc_tc.
    split; intros [?|?]; auto.
Qed.

End Reachability.

(* ===================================================================== *)
(** ** One invocation, step by step *)
(* ===================================================================== *)

Section Run.
Context {St : Type}.
Variable w : World St.

Lemma collectFolders_run (folder : ref) (fs : list ref) :
  Collects w folder fs →
  ∃ n, ∀ fuel, (n ≤ fuel) → ∀ s,
    collectFolders w fuel folder s =
    Some (Normal fs, after s (enumeration w folder) (store s)).
Proof.
  intros [subs Hsubs|err d Herr Hd]; unfold collectFolders, enumeration,
    tryCatch, callGetSubfolders, bind, emit, ret, throw, partial, after.
  - exists 0. intros fuel _ s. rewrite Hsubs. simpl. done.
  - destruct (manual_returns (objects w) d folder Hd) as [n Hn].
    exists n. intros fuel Hfuel s. rewrite Herr, (Hn fuel Hfuel). simpl.
    by rewrite <- app_assoc.
Qed.

Lemma collectUpdates_run (o : Ownership) (fs : list ref) (s : State St) :
  collectUpdates w o fs s =
  Some (Normal (updatesOf w o fs), after s (reading w fs) (store s)).
Proof.
  unfold collectUpdates.
  match goal with |- forOf _ ?b _ _ = _ => set (body := b) end.
  assert (Hin : ∀ docs acc (s' : State St),
    forOf docs
      (λ allUpdates d,
         ret (allUpdates ++ [{| _id := id d; ownership := o |}])) acc s' =
    Some (Normal (acc ++ map (λ d, {| _id := id d; ownership := o |}) docs),
          s')).
  { induction docs as [|d docs IHd]; intros acc s'; simpl.
    - by rewrite app_nil_r.
    - unfold bind, ret. rewrite IHd. by rewrite <- app_assoc. }
  assert (Hout : ∀ fs acc (s' : State St),
    forOf fs body acc s' =
    Some (Normal (acc ++ updatesOf w o fs), after s' (reading w fs) (store s'))).
  { clear fs s. induction fs as [|f fs IH]; intros acc s.
    - simpl. by rewrite app_nil_r, after_nil.
    - cbn [forOf]. unfold bind at 1. unfold body at 1.
      unfold bind at 1 2, emit. cbn [trace store].
      rewrite Hin, IH. unfold updatesOf, reading, documentsOf, after.
      cbn [flat_map trace store]. by rewrite <- !app_assoc. }
  apply Hout.
Qed.

(** With nothing to apply the invocation ends after its first loop,
    whatever the world and the fuel. *)
Lemma cascade_run_nothing (fuel : nat) (folder : ref)
    (formData : JS.object jsstring) (s : State St) :
  normalize formData = ∅ →
  _cascadeOwnership w fuel folder formData s =
  Some (Normal tt,
        after s (flat_map skipped (JS.entries formData)
                 ++ [ConsoleLog LogNothingToApply]) (store s)).
Proof.
  intros Hempty. unfold _cascadeOwnership, bind at 1.
  rewrite buildOwnership_run, <- normalize_fold, Hempty.
  change (JS.keys_length (∅ : Ownership) =? 0) with true. cbn.
  unfold after. simpl. by rewrite <- app_assoc.
Qed.

Lemma cascade_run (folder : ref) (formData : JS.object jsstring)
    (fs : list ref) (s : State St) :
  normalize formData ≠ ∅ → Collects w folder fs →
  Returns w folder formData s
    (after s (prologue w folder formData fs
              ++ (submission w folder formData fs (store s)).1)
             (submission w folder formData fs (store s)).2).
Proof.
  intros Hne Hfs. destruct (collectFolders_run folder fs Hfs) as [n Hn].
  exists n. intros fuel Hfuel. unfold _cascadeOwnership, bind at 1.
  rewrite buildOwnership_run, <- normalize_fold.
  destruct (JS.keys_length (normalize formData) =? 0) eqn:E;
    [by apply keys_length_0 in E|].
  unfold bind at 1, emit at 1. unfold bind at 1. rewrite (Hn fuel Hfuel).
  unfold bind at 1, emit at 1. unfold bind at 1. rewrite collectUpdates_run.
  unfold bind at 1, emit at 1. unfold submission, prologue.
  destruct (updatesOf w (normalize formData) fs) as [|u us] eqn:Hus.
  - cbn. unfold enumeration. same_trace.
  - cbn [length Nat.eqb]. unfold bind at 1, tryCatch, callUpdateDocuments.
    unfold bind at 1 2, emit at 1, withStore. cbn [trace store after].
    destruct (updateDocuments w _ _ _) as [st' [err|]]; cbn;
      unfold enumeration; same_trace.
Qed.

End Run.

(* ===================================================================== *)
(** ** Reading the trace of an invocation *)
(* ===================================================================== *)

Section Reports.
Context {St : Type}.
Variable w : World St.

Lemma storeCalls_app (tr1 tr2 : list Event) :
  storeCalls (tr1 ++ tr2) = storeCalls tr1 ++ storeCalls tr2.
Proof. apply flat_map_app. Qed.

Lemma traversal_app (tr1 tr2 : list Event) :
  List.filter isTraversal (tr1 ++ tr2)
  = List.filter isTraversal tr1 ++ List.filter isTraversal tr2.
Proof. apply List.filter_app. Qed.

Lemma skipped_logs (es : list (string * jsstring)) :
  forallb isConsoleLog (flat_map skipped es) = true.
Proof.
  induction es as [|[k v] es IH]; [done|].
  cbn [flat_map]. rewrite forallb_app, IH, andb_true_r.
  unfold skipped. by destruct (levelOf _).
Qed.

Lemma logs_no_storeCalls (tr : list Event) :
  forallb isConsoleLog tr = true → storeCalls tr = [].
Proof.
  induction tr as [|e tr IH]; [done|]. cbn [forallb].
  intros [He Htr]%andb_prop. destruct e; try done. by apply IH.
Qed.

Lemma logs_no_traversal (tr : list Event) :
  forallb isConsoleLog tr = true → List.filter isTraversal tr = [].
Proof.
  induction tr as [|e tr IH]; [done|]. cbn [forallb].
  intros [He Htr]%andb_prop. destruct e; try done. by apply IH.
Qed.

Lemma reading_no_storeCalls (fs : list ref) : storeCalls (reading w fs) = [].
Proof. induction fs as [|f fs IH]; [done|]. apply IH. Qed.

Lemma enumeration_no_storeCalls (folder : ref) :
  storeCalls (enumeration w folder) = [].
Proof. unfold enumeration. by destruct (getSubfolders w folder). Qed.

Lemma prologue_no_storeCalls folder formData fs :
  storeCalls (prologue w folder formData fs) = [].
Proof.
  unfold prologue.
  rewrite !storeCalls_app, reading_no_storeCalls, enumeration_no_storeCalls.
  by rewrite (logs_no_storeCalls _ (skipped_logs _)).
Qed.

Lemma outcome_last (tr : list Event) (e : Event) :
  outcome (tr ++ [e]) =
  match e with
  | ConsoleLog LogNothingToApply => Some NothingToApply
  | NotifyInfo NoDocuments => Some NoDocumentsFound
  | NotifyInfo (SuccessCascade count folders) => Some (Success count folders)
  | NotifyError ErrorCascade =>
      match rev tr with
      | ConsoleError err :: _ => Some (Failure err)
      | _ => None
      end
  | _ => None
  end.
Proof. unfold outcome. by rewrite rev_unit. Qed.

Lemma length_updatesOf (o : Ownership) (fs : list ref) :
  length (updatesOf w o fs)
  = list_sum (map (λ f, length (default [] (contents (objects w f)))) fs).
Proof.
  induction fs as [|f fs IH]; [done|].
  cbn [updatesOf flat_map map list_sum]. fold (updatesOf w o fs).
  by rewrite length_app, length_map, IH.
Qed.

Lemma updatesOf_ids (o : Ownership) (fs : list ref) :
  map _id (updatesOf w o fs)
  = flat_map (λ f, map id (default [] (contents (objects w f)))) fs.
Proof.
  induction fs as [|f fs IH]; [done|].
  cbn [updatesOf flat_map]. fold (updatesOf w o fs).
  rewrite map_app, IH, map_map. done.
Qed.

Lemma updatesOf_ownership (o : Ownership) (fs : list ref) :
  Forall (λ u, ownership u = o) (updatesOf w o fs).
Proof.
  apply Forall_forall. intros u Hu%list_elem_of_In.
  unfold updatesOf in Hu. apply in_flat_map in Hu as (f & _ & Hu).
  apply in_map_iff in Hu as (d & <- & _). done.
Qed.

Lemma updatesOf_empty (o : Ownership) (fs : list ref) :
  Forall (λ f, default [] (contents (objects w f)) = []) fs →
  updatesOf w o fs = [].
Proof.
  induction 1 as [|f fs Hf _ IH]; [done|].
  cbn [updatesOf flat_map]. fold (updatesOf w o fs).
  unfold documentsOf. by rewrite Hf, IH.
Qed.

End Reports.

(* ===================================================================== *)
(** ** The recording store *)
(* ===================================================================== *)

Section RecordingStoreLemmas.
Variable merge : Ownership → Ownership → Ownership.

Lemma applyUpdates_lookup (a : Ownership) (us : list Update)
    (σ : gmap string Ownership) (k : string) :
  (∀ o, merge a (merge a o) = merge a o) →
  Forall (λ u, ownership u = a) us →
  fold_left (applyUpdate merge) us σ !! k =
  if decide (k ∈ map _id us) then merge a <$> σ !! k else σ !! k.
Proof.
  intros Hidem Hus. revert σ.
  induction Hus as [|u us Hu _ IH]; intros σ.
  - done.
  - cbn [fold_left map]. rewrite IH. unfold applyUpdate. rewrite Hu.
    destruct (decide (k = _id u)) as [->|Hne].
    + rewrite lookup_alter_eq.
      rewrite (decide_True (P := _id u ∈ _id u :: map _id us))
        by apply list_elem_of_here.
      case_decide; [|done].
      destruct (σ !! _id u) as [o|]; cbn; by rewrite ?Hidem.
    + rewrite lookup_alter_ne by done.
      destruct (decide (k ∈ map _id us)) as [Hin|Hnin].
      * rewrite decide_True by (by apply list_elem_of_further). done.
      * rewrite decide_False; [done|]. by intros [?|?]%elem_of_cons.
Qed.

(** Sending the same uniform batch a second time changes nothing. *)
Lemma applyUpdates_twice (a : Ownership) (us : list Update)
    (σ : gmap string Ownership) :
  (∀ o, merge a (merge a o) = merge a o) →
  Forall (λ u, ownership u = a) us →
  fold_left (applyUpdate merge) us (fold_left (applyUpdate merge) us σ)
  = fold_left (applyUpdate merge) us σ.
Proof.
  intros Hidem Hus. apply map_eq. intros k.
  rewrite !(applyUpdates_lookup a us _ k Hidem Hus).
  case_decide; [|done].
  destruct (σ !! k) as [o|]; cbn; by rewrite ?Hidem.
Qed.

End RecordingStoreLemmas.

(* ===================================================================== *)
(** ** The scenario worlds *)
(* ===================================================================== *)

Lemma ownerForAll_nonempty : normalize ownerForAll ≠ ∅.
Proof.
  intros H. apply (f_equal (λ m, m !! "default"%string)) in H.
  by vm_compute in H.
Qed.

Lemma elem_of_listing (h : heap) (root : ref) (d : nat) (x : ref) :
  depthWithin h d root = true →
  x ∈ root :: descendants h d root ↔ rtc (edge h) root x.
Proof.
  intros Hd. rewrite elem_of_cons, (elem_of_descendants h d root x Hd), rtc_tc.
  split; intros [?|?]; auto.
Qed.

Lemma scenarioB_edges (f c : ref) :
  f ∈ [0; 1; 2] → edge scenarioB f c →
  (f = 0 ∧ c = 1) ∨ (f = 1 ∧ c = 2).
Proof.
  intros Hf Hc.
  repeat (apply elem_of_cons in Hf as [->|Hf]);
    [| | |by apply elem_of_nil in Hf];
    vm_compute in Hc;
    repeat (apply elem_of_cons in Hc as [->|Hc]);
    try (by apply elem_of_nil in Hc); auto.
Qed.

Lemma scenarioB_tree : IsTree scenarioB 0.
Proof.
  split.
  - intros f Hf%(elem_of_listing scenarioB 0 2 f eq_refl).
    repeat (apply elem_of_cons in Hf as [->|Hf]);
      [| | |by apply elem_of_nil in Hf]; vm_compute;
      repeat constructor; by intros ?%elem_of_nil.
  - intros f g c Hf%(elem_of_listing scenarioB 0 2 f eq_refl)
                 Hg%(elem_of_listing scenarioB 0 2 g eq_refl) Hfc Hgc.
    destruct (scenarioB_edges f c Hf Hfc) as [[-> ->]|[-> ->]];
      destruct (scenarioB_edges g _ Hg Hgc) as [[-> ?]|[-> ?]];
      done || lia.
Qed.

(* ===================================================================== *)
(** * The properties of the cascade *)
(* ===================================================================== *)

(** C1. For every form, the ownership object built from its form data has
    exactly the keys whose raw value parses, with [Number], to one of the
    levels 0, 1, 2, 3, each mapped to the parsed level; a key whose value
    parses to anything else, or to [NaN], is absent. Scenario A: the form
    data [{"default": "2", "user1": "-1"}] gives [{"default": 2}]. *)
Theorem normalize_keeps_concrete_levels :
  (∀ (selects : list Select) (key : string) (level : number),
     normalize (collectFormData selects) !! key = Some level ↔
     ∃ value, collectFormData selects !! key = Some value
              ∧ Number value = level ∧ isPermissionLevel level)
  ∧ collectFormData scenarioA
    = {[ "default"%string := u16 "2"; "user1"%string := u16 "-1" ]}
  ∧ normalize (collectFormData scenarioA) = {[ "default"%string := ofZ 2%Z ]}.
Proof.
  split; [|split; by vm_compute].
  intros selects key level. rewrite normalize_lookup.
  destruct (decide (key = "__proto__"%string)) as [->|Hkey].
  - rewrite collectFormData_proto. split; [done|]. by intros (? & ? & _).
  - destruct (collectFormData selects !! key) as [value|]; cbn.
    + rewrite levelOf_Some. split.
      * intros [? ?]. by exists value.
      * by intros (? & [= <-] & ? & ?).
    + split; [done|]. by intros (? & ? & _).
Qed.

(** C10. A key of the form data whose value is the empty string, or a
    string of white space only, is kept and mapped to level 0 (None):
    [Number] of such a string is 0, a valid level. *)
Theorem blank_value_is_level_zero (selects : list Select) (key : string)
    (value : jsstring) :
  collectFormData selects !! key = Some value →
  forallb isStrWhiteSpaceChar value = true →
  normalize (collectFormData selects) !! key = Some (ofZ 0%Z).
Proof.
  intros Hkey Hblank. rewrite normalize_lookup.
  destruct (decide (key = "__proto__"%string)) as [->|_].
  - by rewrite collectFormData_proto in Hkey.
  - rewrite Hkey. cbn. unfold levelOf.
    by rewrite (Number_whitespace value Hblank).
Qed.

Lemma blank_value_is_level_zero_witness :
  normalize (collectFormData [select "default" EmptyString; select "user1" "  "])
    !! "default"%string = Some (ofZ 0%Z)
  ∧ normalize (collectFormData [select "default" EmptyString; select "user1" "  "])
    !! "user1"%string = Some (ofZ 0%Z).
Proof.
  split.
  - apply (blank_value_is_level_zero _ _ (u16 EmptyString)); reflexivity.
  - apply (blank_value_is_level_zero _ _ (u16 "  ")); reflexivity.
Defined.

(** C2, as the code has it. The manual walk keeps an explicit stack and no
    record of the containers it has seen. Where every chain of
    child-container references below the root is bounded in length, so
    that no cycle can be reached, the walk returns, and it lists the
    containers below the root. *)
Theorem manual_walk_returns_on_bounded_depth (h : heap) (root : ref)
    (d : nat) :
  depthWithin h d root = true →
  ∃ n, ∀ fuel, (n ≤ fuel) →
    _getSubfoldersManual fuel h root = Some (descendants h d root).
Proof. apply manual_returns. Qed.

Lemma manual_walk_returns_witness :
  ∃ n, ∀ fuel, (n ≤ fuel) →
    _getSubfoldersManual fuel scenarioB 0 = Some [1; 2].
Proof.
  apply (manual_walk_returns_on_bounded_depth scenarioB 0 2).
  reflexivity.
Defined.

(** C2, as stated, fails: on two folders that list each other as child the
    manual walk never returns, however much fuel it is given. *)
Lemma manual_walk_diverges_on_cycle :
  ¬ ∃ fuel result, _getSubfoldersManual fuel cyclic 0 = Some result.
Proof.
  intros (fuel & result & H).
  assert (H01 : edge cyclic 0 1) by (vm_compute; apply list_elem_of_here).
  assert (H10 : edge cyclic 1 0) by (vm_compute; apply list_elem_of_here).
  rewrite (manual_diverges cyclic 0) in H; [done|].
  exists 1. split; [done|]. exists 1. split; [apply rtc_refl|].
  eapply tc_l; [apply H10 | apply tc_once, H01].
Qed.

(** C3. On a container tree (bounded depth, no child listed twice, no
    container with two parents) the folders an invocation collects are
    the root and every container reachable from it, each exactly once,
    whether [getSubfolders] answers or the manual walk replaces it; the
    two strategies collect the same set. [getSubfolders] is host code: it
    is taken to return every container below the folder exactly once. *)
Theorem collected_folders_are_the_tree {St} (w1 w2 : World St) (root : ref)
    (d : nat) (subs : list ref) (err : error) :
  objects w1 = objects w2 →
  IsTree (objects w1) root →
  depthWithin (objects w1) d root = true →
  getSubfolders w1 root = inr subs →
  (NoDup subs ∧ ∀ x, x ∈ subs ↔ tc (edge (objects w1)) root x) →
  getSubfolders w2 root = inl err →
  ∃ manual n,
    (∀ fuel s, (n ≤ fuel) →
       (∃ s', collectFolders w1 fuel root s
              = Some (Normal (root :: subs), s'))
       ∧ ∃ s', collectFolders w2 fuel root s
               = Some (Normal (root :: manual), s'))
    ∧ NoDup (root :: subs) ∧ NoDup (root :: manual)
    ∧ (∀ x, x ∈ root :: subs ↔ rtc (edge (objects w1)) root x)
    ∧ (∀ x, x ∈ root :: manual ↔ rtc (edge (objects w1)) root x)
    ∧ root :: subs ≡ₚ root :: manual.
Proof.
  intros Hobj Htree Hd Hsubs [Hnd Hin] Herr.
  destruct (tree_listing (objects w1) root d Htree Hd) as [Hnd2 Hin2].
  assert (Hc1 : Collects w1 root (root :: subs)) by by constructor.
  assert (Hc2 : Collects w2 root (root :: descendants (objects w1) d root)).
  { rewrite Hobj. econstructor; [done|]. by rewrite <- Hobj. }
  destruct (collectFolders_run w1 root _ Hc1) as [n1 Hn1].
  destruct (collectFolders_run w2 root _ Hc2) as [n2 Hn2].
  assert (Hnd1 : NoDup (root :: subs)).
  { apply NoDup_cons. split; [|done]. rewrite Hin.
    by apply (depthWithin_acyclic (objects w1) d root). }
  assert (Hin1 : ∀ x, x ∈ root :: subs ↔ rtc (edge (objects w1)) root x).
  { intros x. rewrite elem_of_cons, Hin, rtc_tc. split; intros [?|?]; auto. }
  exists (descendants (objects w1) d root), (n1 + n2).
  split_and!; try done.
  - intros fuel s Hfuel. split; eexists.
    + apply Hn1. lia.
    + apply Hn2. lia.
  - apply NoDup_Permutation; [done..|]. intros x. by rewrite Hin1, Hin2.
Qed.

(** C4. When the ownership object built from the form data is empty the
    invocation reports that there is nothing to apply and ends: it makes
    no store call, enumerates no folder and reads no folder contents. *)
Theorem empty_assignment_short_circuit {St} (w : World St) (fuel : nat)
    (folder : ref) (formData : JS.object jsstring) (s : State St) :
  normalize formData = ∅ →
  ∃ tr,
    _cascadeOwnership w fuel folder formData s
    = Some (Normal tt, after s tr (store s))
    ∧ outcome tr = Some NothingToApply
    ∧ storeCalls tr = []
    ∧ List.filter isTraversal tr = []
    ∧ forallb isConsoleLog tr = true.
Proof.
  intros Hempty. eexists. split; [by apply cascade_run_nothing|].
  assert (Hlogs : forallb isConsoleLog
            (flat_map skipped (JS.entries formData)
             ++ [ConsoleLog LogNothingToApply]) = true).
  { by rewrite forallb_app, skipped_logs. }
  split_and!.
  - by rewrite outcome_last.
  - by apply logs_no_storeCalls.
  - by apply logs_no_traversal.
  - done.
Qed.

(** C5. With a non-empty ownership object and no document in any
    collected folder the invocation reports that no documents were found
    and makes no store call. The report differs from the one for an empty
    ownership object, and that one takes precedence: with an empty
    ownership object the same tree yields "nothing to apply". *)
Theorem empty_tree_reports_no_documents {St} (w : World St) (folder : ref)
    (formData : JS.object jsstring) (fs : list ref) (s : State St) :
  normalize formData ≠ ∅ →
  Collects w folder fs →
  Forall (λ f, default [] (contents (objects w f)) = []) fs →
  (∃ tr,
     Returns w folder formData s (after s tr (store s))
     ∧ outcome tr = Some NoDocumentsFound
     ∧ outcome tr ≠ Some NothingToApply
     ∧ storeCalls tr = [])
  ∧ ∀ formData' fuel, normalize formData' = ∅ →
      ∃ tr', _cascadeOwnership w fuel folder formData' s
             = Some (Normal tt, after s tr' (store s))
             ∧ outcome tr' = Some NothingToApply.
Proof.
  intros Hne Hfs Hempty. split.
  - pose proof (cascade_run w folder formData fs s Hne Hfs) as Hrun.
    unfold submission in Hrun.
    rewrite (updatesOf_empty w _ fs Hempty) in Hrun. cbn [fst snd] in Hrun.
    eexists. split; [apply Hrun|].
    rewrite outcome_last, storeCalls_app, prologue_no_storeCalls. done.
  - intros formData' fuel Hempty'. eexists.
    split; [by apply cascade_run_nothing|]. by rewrite outcome_last.
Qed.

(** C6. The updates of an invocation are one per document of every
    collected folder, a folder whose [contents] is empty or missing
    giving none: their number is the sum of the folders' document counts,
    their identifiers are the documents' in order, and each carries the
    ownership object. When there is any they are sent in one batch. *)
Theorem one_update_per_document {St} (w : World St) (folder : ref)
    (formData : JS.object jsstring) (fs : list ref) (s : State St) :
  normalize formData ≠ ∅ →
  Collects w folder fs →
  ∃ tr st' us,
    Returns w folder formData s (after s tr st')
    ∧ storeCalls tr = match us with
                      | [] => []
                      | _ => [(documentClass (objects w folder), us)]
                      end
    ∧ length us
      = list_sum (map (λ f, length (default [] (contents (objects w f)))) fs)
    ∧ map _id us
      = flat_map (λ f, map id (default [] (contents (objects w f)))) fs
    ∧ Forall (λ u, ownership u = normalize formData) us.
Proof.
  intros Hne Hfs.
  pose proof (cascade_run w folder formData fs s Hne Hfs) as Hrun.
  eexists _, _, (updatesOf w (normalize formData) fs).
  split; [apply Hrun|]. split_and!.
  - rewrite storeCalls_app, prologue_no_storeCalls. unfold submission.
    destruct (updatesOf w (normalize formData) fs) as [|u us]; [done|].
    by destruct (updateDocuments w _ _ _) as [st' [e|]].
  - apply length_updatesOf.
  - apply updatesOf_ids.
  - apply updatesOf_ownership.
Qed.

(** C7. When the batch call resolves the invocation reports success with
    the number of updates sent as item count and the number of collected
    folders minus one, the root, as sub-folder count. *)
Theorem success_reports_counts {St} (w : World St) (folder : ref)
    (formData : JS.object jsstring) (fs : list ref) (s : State St)
    (st' : St) :
  let us := updatesOf w (normalize formData) fs in
  let docClass := documentClass (objects w folder) in
  normalize formData ≠ ∅ →
  Collects w folder fs →
  us ≠ [] →
  updateDocuments w docClass us (store s) = (st', None) →
  ∃ tr,
    Returns w folder formData s (after s tr st')
    ∧ storeCalls tr = [(docClass, us)]
    ∧ outcome tr = Some (Success (Z.of_nat (length us))
                                 (Z.of_nat (length fs) - 1)%Z).
Proof.
  intros us docClass Hne Hfs Hus Hok.
  pose proof (cascade_run w folder formData fs s Hne Hfs) as Hrun.
  unfold submission in Hrun. fold us docClass in Hrun.
  destruct us as [|u us'] eqn:E; [done|].
  rewrite Hok in Hrun. cbn [fst snd] in Hrun.
  eexists. split; [apply Hrun|]. split.
  - rewrite storeCalls_app, prologue_no_storeCalls. done.
  - match goal with |- context [?p ++ [?a; ?b; ?c]] =>
      change (p ++ [a; b; c]) with (p ++ ([a; b] ++ [c]))
    end.
    by rewrite app_assoc, outcome_last.
Qed.

(** C8. When the batch call rejects the invocation logs the error,
    reports failure and returns normally: the error does not leave the
    invocation, and the batch was sent once and is not sent again. *)
Theorem failure_is_reported_once {St} (w : World St) (folder : ref)
    (formData : JS.object jsstring) (fs : list ref) (s : State St)
    (st' : St) (err : error) :
  let us := updatesOf w (normalize formData) fs in
  let docClass := documentClass (objects w folder) in
  normalize formData ≠ ∅ →
  Collects w folder fs →
  us ≠ [] →
  updateDocuments w docClass us (store s) = (st', Some err) →
  ∃ tr,
    Returns w folder formData s (after s tr st')
    ∧ storeCalls tr = [(docClass, us)]
    ∧ outcome tr = Some (Failure err).
Proof.
  intros us docClass Hne Hfs Hus Hrej.
  pose proof (cascade_run w folder formData fs s Hne Hfs) as Hrun.
  unfold submission in Hrun. fold us docClass in Hrun.
  destruct us as [|u us'] eqn:E; [done|].
  rewrite Hrej in Hrun. cbn [fst snd] in Hrun.
  eexists. split; [apply Hrun|]. split.
  - rewrite storeCalls_app, prologue_no_storeCalls. done.
  - match goal with |- context [?p ++ [?a; ?b; ?c]] =>
      change (p ++ [a; b; c]) with (p ++ ([a; b] ++ [c]))
    end.
    by rewrite app_assoc, outcome_last, rev_app_distr.
Qed.

(** C9. Against a store that records the ownership of every document and
    combines an update with what it holds idempotently, a second
    invocation with the same root and form data sends the same batch and
    leaves the store as the first one left it. *)
Theorem cascade_twice_same_ownership
    (merge : Ownership → Ownership → Ownership) (h : heap)
    (gs : ref → error + list ref) (folder : ref)
    (formData : JS.object jsstring) (fs : list ref)
    (s : State (gmap string Ownership)) :
  (∀ a o, merge a (merge a o) = merge a o) →
  Collects (recordingWorld merge h gs) folder fs →
  ∃ tr1 tr2 st1,
    Returns (recordingWorld merge h gs) folder formData
            s (after s tr1 st1)
    ∧ Returns (recordingWorld merge h gs) folder formData
              (after s tr1 st1) (after (after s tr1 st1) tr2 st1)
    ∧ storeCalls tr2 = storeCalls tr1.
Proof.
  intros Hidem Hfs. set (w := recordingWorld merge h gs) in *.
  destruct (decide (normalize formData = ∅)) as [Hempty|Hne].
  - exists (flat_map skipped (JS.entries formData)
            ++ [ConsoleLog LogNothingToApply]),
           (flat_map skipped (JS.entries formData)
            ++ [ConsoleLog LogNothingToApply]), (store s).
    split_and!; [| |done]; exists 0; intros fuel _;
      by rewrite cascade_run_nothing.
  - pose proof (cascade_run w folder formData fs s Hne Hfs) as Hrun1.
    eexists _, _, _. split; [apply Hrun1|]. split.
    + match goal with |- Returns _ _ _ ?s1 _ =>
        pose proof (cascade_run w folder formData fs s1 Hne Hfs) as Hrun2
      end.
      match type of Hrun2 with Returns _ _ _ _ ?s2 =>
        match goal with |- Returns _ _ _ _ ?s2' =>
          replace s2' with s2; [apply Hrun2|]
        end
      end.
      unfold after at 1 3. f_equal. unfold submission.
      destruct (updatesOf w (normalize formData) fs) as [|u us] eqn:E;
        [done|].
      cbn [updateDocuments w recordingWorld recordingStore fst snd after store].
      rewrite <- E.
      apply (applyUpdates_twice merge (normalize formData));
        [apply Hidem | apply updatesOf_ownership].
    + do 2 f_equal. unfold submission.
      by destruct (updatesOf w (normalize formData) fs).
Qed.

(* ===================================================================== *)
(** ** The scenarios, run *)
(* ===================================================================== *)

Lemma collected_folders_are_the_tree_witness :
  ∃ manual n,
    (∀ fuel s, (n ≤ fuel) →
       (∃ s', collectFolders scenarioB_primary fuel 0 s
              = Some (Normal [0; 1; 2], s'))
       ∧ ∃ s', collectFolders scenarioB_fallback fuel 0 s
               = Some (Normal (0 :: manual), s'))
    ∧ NoDup [0; 1; 2] ∧ NoDup (0 :: manual)
    ∧ (∀ x, x ∈ [0; 1; 2] ↔ rtc (edge scenarioB) 0 x)
    ∧ (∀ x, x ∈ 0 :: manual ↔ rtc (edge scenarioB) 0 x)
    ∧ [0; 1; 2] ≡ₚ 0 :: manual.
Proof.
  apply (collected_folders_are_the_tree scenarioB_primary scenarioB_fallback
           0 2 [1; 2]
           "folder.getSubfolders is not a function"%string).
  - reflexivity.
  - apply scenarioB_tree.
  - reflexivity.
  - reflexivity.
  - split.
    + apply NoDup_cons. split; [|apply NoDup_singleton].
      by intros ?%list_elem_of_singleton.
    + intros x. apply (elem_of_descendants scenarioB 2 0 x). reflexivity.
  - reflexivity.
Defined.

Lemma empty_assignment_short_circuit_witness :
  normalize scenarioC = ∅
  ∧ ∃ tr,
      _cascadeOwnership scenarioB_fallback 0 0 scenarioC (start tt)
      = Some (Normal tt, after (start tt) tr tt)
      ∧ outcome tr = Some NothingToApply
      ∧ storeCalls tr = []
      ∧ List.filter isTraversal tr = []
      ∧ forallb isConsoleLog tr = true.
Proof.
  split; [by vm_compute|].
  apply (empty_assignment_short_circuit
           scenarioB_fallback 0 0 scenarioC (start tt)).
  by vm_compute.
Defined.

Lemma emptyTree_collects :
  Collects emptyTree_world 0 [0; 1].
Proof.
  exact (Collects_fallback emptyTree_world 0
           "folder.getSubfolders is not a function"%string 1
           eq_refl eq_refl).
Qed.

Lemma scenarioB_collects_fallback :
  Collects scenarioB_fallback 0 [0; 1; 2].
Proof.
  exact (Collects_fallback scenarioB_fallback 0
           "folder.getSubfolders is not a function"%string 2
           eq_refl eq_refl).
Qed.

Lemma scenarioB_collects_primary :
  Collects scenarioB_primary 0 [0; 1; 2].
Proof. exact (Collects_primary scenarioB_primary 0 [1; 2] eq_refl). Qed.

Lemma scenarioE_collects :
  Collects scenarioE 0 [0; 1; 2].
Proof. exact (Collects_primary scenarioE 0 [1; 2] eq_refl). Qed.

Lemma empty_tree_reports_no_documents_witness :
  (∃ tr,
     Returns emptyTree_world 0 ownerForAll (start tt)
             (after (start tt) tr tt)
     ∧ outcome tr = Some NoDocumentsFound
     ∧ outcome tr ≠ Some NothingToApply
     ∧ storeCalls tr = [])
  ∧ ∀ formData' fuel, normalize formData' = ∅ →
      ∃ tr', _cascadeOwnership emptyTree_world fuel 0 formData' (start tt)
             = Some (Normal tt, after (start tt) tr' tt)
             ∧ outcome tr' = Some NothingToApply.
Proof.
  apply (empty_tree_reports_no_documents
           emptyTree_world 0 ownerForAll [0; 1] (start tt)).
  - apply ownerForAll_nonempty.
  - apply emptyTree_collects.
  - repeat constructor.
Defined.

Lemma one_update_per_document_witness :
  ∃ tr st' us,
    Returns scenarioB_fallback 0 ownerForAll (start tt)
            (after (start tt) tr st')
    ∧ storeCalls tr = match us with
                      | [] => []
                      | _ => [("Item"%string, us)]
                      end
    ∧ length us = 5
    ∧ map _id us = ["a"; "b"; "c"; "d"; "e"]%string
    ∧ Forall (λ u, ownership u = normalize ownerForAll) us.
Proof.
  apply (one_update_per_document
           scenarioB_fallback 0 ownerForAll [0; 1; 2] (start tt)).
  - apply ownerForAll_nonempty.
  - apply scenarioB_collects_fallback.
Defined.

(** Scenario B: five updates, two sub-folders. *)
Lemma success_reports_counts_witness :
  ∃ tr,
    Returns scenarioB_primary 0 ownerForAll (start tt)
            (after (start tt) tr tt)
    ∧ storeCalls tr
      = [("Item"%string,
          updatesOf scenarioB_primary (normalize ownerForAll) [0; 1; 2])]
    ∧ outcome tr = Some (Success 5%Z 2%Z).
Proof.
  apply (success_reports_counts
           scenarioB_primary 0 ownerForAll [0; 1; 2] (start tt) tt).
  - apply ownerForAll_nonempty.
  - apply scenarioB_collects_primary.
  - discriminate.
  - reflexivity.
Defined.

(** Scenario E: the store rejects. *)
Lemma failure_is_reported_once_witness :
  ∃ tr,
    Returns scenarioE 0 ownerForAll (start tt) (after (start tt) tr tt)
    ∧ storeCalls tr
      = [("Item"%string,
          updatesOf scenarioE (normalize ownerForAll) [0; 1; 2])]
    ∧ outcome tr = Some (Failure "the server refused the update").
Proof.
  apply (failure_is_reported_once
           scenarioE 0 ownerForAll [0; 1; 2] (start tt) tt
           "the server refused the update"%string).
  - apply ownerForAll_nonempty.
  - apply scenarioE_collects.
  - discriminate.
  - reflexivity.
Defined.

Lemma cascade_twice_same_ownership_witness :
  ∃ tr1 tr2 st1,
    Returns (recordingWorld overwrite scenarioB noGetSubfolders) 0
            ownerForAll (start ∅) (after (start ∅) tr1 st1)
    ∧ Returns (recordingWorld overwrite scenarioB noGetSubfolders) 0
              ownerForAll (after (start ∅) tr1 st1)
              (after (after (start ∅) tr1 st1) tr2 st1)
    ∧ storeCalls tr2 = storeCalls tr1.
Proof.
  apply (cascade_twice_same_ownership overwrite scenarioB noGetSubfolders
           0 ownerForAll [0; 1; 2] (start ∅)).
  - reflexivity.
  - exact (Collects_fallback
             (recordingWorld overwrite scenarioB noGetSubfolders) 0
             "folder.getSubfolders is not a function"%string 2
             eq_refl eq_refl).
Defined.

(* ===================================================================== *)
(** * Further properties of the script *)
(* ===================================================================== *)

(* ===================================================================== *)
(** ** The manual walk on any graph *)
(* ===================================================================== *)

Section WalkOnGraphs.
Variable h : heap.

Lemma depthWithin_S (d : nat) (f : ref) :
  depthWithin h d f = true → depthWithin h (S d) f = true.
Proof.
  revert f. induction d as [|d IH]; intros f Hd.
  - cbn [depthWithin] in *. by destruct (subfolders h f).
  - cbn [depthWithin] in Hd. change (forallb (depthWithin h (S d))
      (subfolders h f) = true).
    rewrite forallb_forall in *. intros c Hc. apply IH. by apply Hd.
Qed.

Lemma depthWithin_le (d d' : nat) (f : ref) :
  d ≤ d' → depthWithin h d f = true → depthWithin h d' f = true.
Proof. induction 1; auto using depthWithin_S. Qed.

(** Within its depth a folder has the same listing at every bound. *)
Lemma descendants_S (d : nat) (f : ref) :
  depthWithin h d f = true → descendants h (S d) f = descendants h d f.
Proof.
  revert f. induction d as [|d IH]; intros f Hd.
  - cbn [depthWithin] in Hd. cbn [descendants].
    by destruct (subfolders h f).
  - cbn [depthWithin] in Hd. rewrite forallb_forall in Hd.
    change (reverse (subfolders h f) ≫= (λ c, c :: descendants h (S d) c)
            = reverse (subfolders h f) ≫= (λ c, c :: descendants h d c)).
    assert (Hall : ∀ c, c ∈ reverse (subfolders h f) →
              depthWithin h d c = true).
    { intros c Hc. rewrite elem_of_reverse in Hc.
      apply Hd. by apply list_elem_of_In. }
    induction (reverse (subfolders h f)) as [|c cs IHcs]; [done|].
    rewrite !bind_cons. f_equal.
    + f_equal. apply IH, Hall, list_elem_of_here.
    + apply IHcs. intros c' Hc'. by apply Hall, list_elem_of_further.
Qed.

Lemma listing_S (d : nat) (cs : list ref) :
  forallb (depthWithin h d) cs = true →
  reverse cs ≫= (λ c, c :: descendants h (S d) c)
  = reverse cs ≫= (λ c, c :: descendants h d c).
Proof.
  induction cs as [|c cs IH] using rev_ind; [done|].
  rewrite forallb_app. intros [Hcs Hc]%andb_prop.
  cbn [forallb] in Hc. apply andb_prop in Hc as [Hc _].
  rewrite reverse_app, !bind_app. f_equal; [|by apply IH].
  change (reverse [c]) with [c]. rewrite !bind_cons.
  by rewrite (descendants_S d c Hc).
Qed.

(** A loop that comes to an end within [fuel] iterations started from a
    stack whose folders are within depth [fuel], and it appended their
    listings. *)
Lemma manualLoop_Some (fuel : nat) :
  ∀ stack res result,
    manualLoop fuel h stack res = Some result →
    forallb (depthWithin h fuel)
            (filter (λ c, instanceofFolder (h c) = true) stack) = true
    ∧ result = res ++ (reverse (filter (λ c, instanceofFolder (h c) = true)
                                 stack)
                       ≫= λ c, c :: descendants h fuel c).
Proof.
  induction fuel as [|fuel IH]; intros stack res result;
    (destruct stack as [|x stack _] using rev_ind;
     [ cbn; intros [= <-]; by rewrite app_nil_r | ]);
    cbn [manualLoop]; rewrite pop_snoc; [done|].
  rewrite filter_app, forallb_app, reverse_app, bind_app.
  destruct (instanceofFolder (h x)) eqn:E.
  - intros [Hd ->]%IH.
    rewrite filter_app, forallb_app in Hd. apply andb_prop in Hd as [Hs Hx].
    rewrite filter_app, reverse_app, bind_app.
    rewrite filter_cons_True, filter_nil by done. split.
    + apply andb_true_intro. split.
      * rewrite forallb_forall in *. intros c Hc.
        by apply depthWithin_S, Hs.
      * cbn [forallb depthWithin]. by rewrite andb_true_r.
    + rewrite (listing_S fuel _ Hs).
      change (reverse [x]) with [x]. rewrite bind_cons.
      cbn [descendants]. unfold subfolders. by rewrite <- !app_assoc.
  - intros [Hs ->]%IH.
    rewrite filter_cons_False, filter_nil by congruence. split.
    + rewrite andb_true_r. rewrite forallb_forall in *. intros c Hc.
      by apply depthWithin_S, Hs.
    + by rewrite (listing_S fuel _ Hs).
Qed.

(** What a walk that returns has found, and the depth of the graph it
    walked. *)
Lemma manual_Some (fuel : nat) (root : ref) (result : list ref) :
  _getSubfoldersManual fuel h root = Some result →
  depthWithin h (S fuel) root = true
  ∧ result = descendants h (S fuel) root.
Proof.
  unfold _getSubfoldersManual. intros [Hd ->]%manualLoop_Some. done.
Qed.

(** A listing without duplicates has no duplicate among the children. *)
Lemma NoDup_bind_heads {A} (k : A → list A) (l : list A) :
  NoDup (l ≫= λ c, c :: k c) → NoDup l.
Proof.
  induction l as [|a l IH]; [constructor|].
  rewrite bind_cons. intros [Ha Hl]%NoDup_cons.
  apply NoDup_cons. split; [|apply IH; by apply NoDup_app in Hl as (_ & _ & ?)].
  intros Hin. apply Ha. apply elem_of_app. right.
  apply list_elem_of_bind. exists a. split; [apply list_elem_of_here | done].
Qed.

Lemma NoDup_bind_part {A B} (g : A → list B) (l : list A) (x : A) :
  NoDup (l ≫= g) → x ∈ l → NoDup (g x).
Proof.
  induction l as [|a l IH]; [by intros _ ?%elem_of_nil|].
  rewrite bind_cons. intros (Ha & _ & Hl)%NoDup_app [->|Hx]%elem_of_cons; auto.
Qed.

Lemma NoDup_bind_inj {A B} (g : A → list B) (l : list A) (x1 x2 : A) (y : B) :
  NoDup (l ≫= g) → x1 ∈ l → x2 ∈ l → y ∈ g x1 → y ∈ g x2 → x1 = x2.
Proof.
  induction l as [|a l IH]; [by intros _ ?%elem_of_nil|].
  rewrite bind_cons. intros (Ha & Hdis & Hl)%NoDup_app.
  intros [->|H1]%elem_of_cons [->|H2]%elem_of_cons Hy1 Hy2; auto.
  - destruct (Hdis y Hy1). apply list_elem_of_bind. by exists x2.
  - destruct (Hdis y Hy2). apply list_elem_of_bind. by exists x1.
Qed.

Lemma rtc_edge_inv (r f : ref) :
  rtc (edge h) r f → f = r ∨ ∃ k, edge h r k ∧ rtc (edge h) k f.
Proof. intros [->|(k & ? & ?)]%rtc_inv; [by left | right; by exists k]. Qed.

(** A listing without duplicates comes from a tree. *)
Lemma NoDup_descendants_tree (d : nat) :
  ∀ r, depthWithin h d r = true → NoDup (descendants h d r) →
       IsTree h r.
Proof.
  induction d as [|d IH]; intros r Hd Hnd.
  - cbn [depthWithin] in Hd. destruct (subfolders h r) eqn:Hsub; [|done].
    assert (Hno : ∀ c, ¬ edge h r c).
    { intros c Hc. unfold edge in Hc. rewrite Hsub in Hc.
      by apply elem_of_nil in Hc. }
    assert (Honly : ∀ f, rtc (edge h) r f → f = r).
    { intros f [->|(k & Hk & _)]%rtc_edge_inv; [done|]. by destruct (Hno k). }
    split.
    + intros f ->%Honly. rewrite Hsub. constructor.
    + intros f g c ->%Honly _ Hfc. by destruct (Hno c).
  - cbn [descendants] in Hnd.
    assert (Hkid : ∀ k, edge h r k →
              k ∈ reverse (subfolders h r) ∧ depthWithin h d k = true
              ∧ IsTree h k).
    { intros k Hk.
      destruct (depthWithin_edge h _ r k Hd Hk) as (d' & [= <-] & Hdk).
      assert (Hin : k ∈ reverse (subfolders h r)) by by apply elem_of_reverse_2.
      split_and!; [done..|]. apply IH; [done|].
      apply (NoDup_bind_part _ _ k) in Hnd; [|done].
      by apply NoDup_cons in Hnd as [_ ?]. }
    assert (Hseg : ∀ k x, edge h r k → rtc (edge h) k x →
              x ∈ k :: descendants h d k).
    { intros k x (_ & Hdk & _)%Hkid Hx.
      apply (elem_of_listing h k d x Hdk). done. }
    assert (Hsame : ∀ k1 k2 x, edge h r k1 → edge h r k2 →
              rtc (edge h) k1 x → rtc (edge h) k2 x → k1 = k2).
    { intros k1 k2 x Hk1 Hk2 H1 H2.
      eapply (NoDup_bind_inj _ _ k1 k2 x Hnd).
      - by apply Hkid.
      - by apply Hkid.
      - by apply Hseg.
      - by apply Hseg. }
    split.
    + intros f [->|(k & Hk & Hkf)]%rtc_edge_inv.
      * apply NoDup_bind_heads in Hnd. by rewrite reverse_Permutation in Hnd.
      * destruct (Hkid k Hk) as (_ & _ & Ht).
        by apply (tree_children_distinct h k Ht).
    + intros f g c Hf Hg Hfc Hgc.
      apply rtc_edge_inv in Hf as [->|(k1 & Hk1 & Hk1f)];
        apply rtc_edge_inv in Hg as [->|(k2 & Hk2 & Hk2g)]; [done| | |].
      * (* [r] lists [c], and [c] lies below the child [k2] as well *)
        assert (c = k2) as ->.
        { apply (Hsame c k2 c Hfc Hk2); [apply rtc_refl|].
          by eapply rtc_r. }
        destruct (Hkid k2 Hk2) as (_ & Hdk & _).
        destruct (depthWithin_acyclic h d k2 Hdk).
        eapply tc_rtc_l; [apply Hk2g | by apply tc_once].
      * assert (c = k1) as ->.
        { apply (Hsame c k1 c Hgc Hk1); [apply rtc_refl|].
          by eapply rtc_r. }
        destruct (Hkid k1 Hk1) as (_ & Hdk & _).
        destruct (depthWithin_acyclic h d k1 Hdk).
        eapply tc_rtc_l; [apply Hk1f | by apply tc_once].
      * assert (k1 = k2) as ->.
        { apply (Hsame k1 k2 c Hk1 Hk2); by eapply rtc_r. }
        destruct (Hkid k2 Hk2) as (_ & _ & Ht).
        by apply (tree_single_parent h k2 Ht f g c).
Qed.

Lemma tc_edge_folder (f x : ref) :
  tc (edge h) f x → instanceofFolder (h x) = true.
Proof. induction 1; [by eapply edge_folder | done]. Qed.

End WalkOnGraphs.

(** X1. The manual walk comes to an end, given enough fuel, exactly on the
    graphs in which the chains of child-container edges below the root are
    bounded in length. *)
Theorem manual_walk_returns_iff_bounded (h : heap) (root : ref) :
  (∃ fuel result, _getSubfoldersManual fuel h root = Some result)
  ↔ ∃ d, depthWithin h d root = true.
Proof.
  split.
  - intros (fuel & result & [Hd _]%manual_Some). by exists (S fuel).
  - intros (d & Hd). destruct (manual_returns h d root Hd) as [n Hn].
    exists n, (descendants h d root). by apply Hn.
Qed.

(** X2. On any graph, a tree or not, a manual walk that returns has listed
    exactly the containers below the root: every entry is a [Folder]
    reached by child-container edges, every such container is listed, and
    the root itself is not. *)
Theorem manual_walk_lists_what_is_below (h : heap) (root : ref) (fuel : nat)
    (result : list ref) :
  _getSubfoldersManual fuel h root = Some result →
  (∀ x, x ∈ result ↔ tc (edge h) root x)
  ∧ Forall (λ x, instanceofFolder (h x) = true) result
  ∧ root ∉ result.
Proof.
  intros [Hd ->]%manual_Some.
  assert (Hin : ∀ x, x ∈ descendants h (S fuel) root ↔ tc (edge h) root x)
    by (intros x; by apply elem_of_descendants).
  split_and!; [done| |].
  - apply Forall_forall. intros x Hx%Hin. by eapply tc_edge_folder.
  - intros Hroot%Hin. by apply (depthWithin_acyclic h (S fuel) root).
Qed.

Lemma manual_walk_lists_what_is_below_witness :
  (∀ x, x ∈ [2; 3; 1; 3] ↔ tc (edge diamond) 0 x)
  ∧ Forall (λ x, instanceofFolder (diamond x) = true) [2; 3; 1; 3]
  ∧ 0 ∉ [2; 3; 1; 3].
Proof.
  apply (manual_walk_lists_what_is_below diamond 0 7 [2; 3; 1; 3]).
  reflexivity.
Defined.

(** X3. The list an invocation collects through the manual walk, the root
    followed by the walk's result, is free of duplicates exactly when the
    graph below the root is a tree: a container that is listed twice by
    its parent, or that has two parents, is collected more than once. *)
Theorem manual_walk_duplicates_iff_not_tree (h : heap) (root : ref)
    (fuel : nat) (result : list ref) :
  _getSubfoldersManual fuel h root = Some result →
  NoDup (root :: result) ↔ IsTree h root.
Proof.
  intros [Hd ->]%manual_Some. split.
  - intros [_ Hnd]%NoDup_cons. by eapply NoDup_descendants_tree.
  - intros Ht. by apply tree_listing.
Qed.

Lemma manual_walk_duplicates_iff_not_tree_witness :
  NoDup (0 :: [2; 3; 1; 3]) ↔ IsTree diamond 0.
Proof.
  apply (manual_walk_duplicates_iff_not_tree diamond 0 7 [2; 3; 1; 3]).
  reflexivity.
Defined.

(** X4. An entry of [children] that has a [folder] property is replaced
    by that property. When the entry is a sub-folder document, whose
    [folder] is its parent, the walk of the parent puts the parent itself
    on the stack and never returns. *)
Theorem manual_walk_diverges_on_folder_entry (h : heap) (root child : ref) :
  instanceofFolder (h root) = true →
  child ∈ default [] (children (h root)) →
  folder (h child) = Some root →
  ∀ fuel, _getSubfoldersManual fuel h root = None.
Proof.
  intros Hroot Hchild Hparent.
  assert (Hedge : edge h root root).
  { unfold edge, subfolders. apply list_elem_of_filter. split; [done|].
    unfold childFolders. apply list_elem_of_fmap. exists child.
    split; [|done]. unfold folderOf. by rewrite Hparent. }
  apply manual_diverges. exists root. split; [done|].
  exists root. split; [apply rtc_refl | by apply tc_once].
Qed.

Lemma manual_walk_diverges_on_folder_entry_witness :
  _getSubfoldersManual 1000 folderChildren 0 = None.
Proof.
  refine (manual_walk_diverges_on_folder_entry folderChildren 0 1 _ _ _ 1000).
  - reflexivity.
  - apply list_elem_of_here.
  - reflexivity.
Defined.

(* ===================================================================== *)
(** ** Any invocation, at any fuel *)
(* ===================================================================== *)

Section AnyRun.
Context {St : Type}.
Variable w : World St.

Lemma collectFolders_at (fuel : nat) (folder : ref) (s : State St) :
  collectFolders w fuel folder s =
  match collected w fuel folder with
  | Some fs => Some (Normal fs, after s (enumeration w folder) (store s))
  | None => None
  end.
Proof.
  unfold collectFolders, collected, enumeration, tryCatch, callGetSubfolders,
    bind, emit, ret, throw, partial, after.
  destruct (getSubfolders w folder) as [err|subs]; cbn; [|done].
  destruct (_getSubfoldersManual fuel (objects w) folder); cbn; [|done].
  by rewrite <- app_assoc.
Qed.

(** The whole run, as an equation. *)
Lemma cascade_at (fuel : nat) (folder : ref) (formData : JS.object jsstring)
    (s : State St) :
  normalize formData ≠ ∅ →
  _cascadeOwnership w fuel folder formData s =
  match collected w fuel folder with
  | Some fs =>
      Some (Normal tt,
            after s (prologue w folder formData fs
                     ++ (submission w folder formData fs (store s)).1)
                    (submission w folder formData fs (store s)).2)
  | None => None
  end.
Proof.
  intros Hne. unfold _cascadeOwnership, bind at 1.
  rewrite buildOwnership_run, <- normalize_fold.
  destruct (JS.keys_length (normalize formData) =? 0) eqn:E;
    [by apply keys_length_0 in E|].
  unfold bind at 1, emit at 1. unfold bind at 1. rewrite collectFolders_at.
  destruct (collected w fuel folder) as [fs|]; [|done].
  unfold bind at 1, emit at 1. unfold bind at 1. rewrite collectUpdates_run.
  unfold bind at 1, emit at 1. unfold submission, prologue.
  destruct (updatesOf w (normalize formData) fs) as [|u us] eqn:Hus.
  - cbn. unfold enumeration. same_trace.
  - cbn [length Nat.eqb]. unfold bind at 1, tryCatch, callUpdateDocuments.
    unfold bind at 1 2, emit at 1, withStore. cbn [trace store after].
    destruct (updateDocuments w _ _ _) as [st' [err|]]; cbn;
      unfold enumeration; same_trace.
Qed.

Lemma submission_storeCalls folder formData fs st :
  storeCalls (submission w folder formData fs st).1
  = match updatesOf w (normalize formData) fs with
    | [] => []
    | us => [(documentClass (objects w folder), us)]
    end.
Proof.
  unfold submission.
  destruct (updatesOf w (normalize formData) fs) as [|u us]; [done|].
  by destruct (updateDocuments w _ _ _) as [st' [e|]].
Qed.

Lemma submission_store folder formData fs st :
  updatesOf w (normalize formData) fs = [] →
  (submission w folder formData fs st).2 = st.
Proof. unfold submission. by intros ->. Qed.

End AnyRun.

Lemma cascade_ends_normally {St} (w : World St) (fuel : nat) (folder : ref)
    (formData : JS.object jsstring) (s : State St)
    (c : Completion unit) (s' : State St) :
  _cascadeOwnership w fuel folder formData s = Some (c, s') → c = Normal tt.
Proof.
  destruct (decide (normalize formData = ∅)) as [Hempty|Hne].
  - rewrite cascade_run_nothing by done. by intros [= <- _].
  - rewrite cascade_at by done.
    destruct (collected w fuel folder) as [fs|]; [|done]. by intros [= <- _].
Qed.

(** X5. Whatever the world, the fuel and the form data, an invocation
    that ends returns normally: no error of the host leaves it. It sends
    at most one batch to the store, and when it sends none the store is
    as it was. *)
Theorem cascade_never_throws {St} (w : World St) (fuel : nat) (folder : ref)
    (formData : JS.object jsstring) (s : State St)
    (c : Completion unit) (s' : State St) :
  _cascadeOwnership w fuel folder formData s = Some (c, s') →
  c = Normal tt
  ∧ ∃ tr, s' = after s tr (store s')
          ∧ length (storeCalls tr) ≤ 1
          ∧ (storeCalls tr = [] → store s' = store s).
Proof.
  destruct (decide (normalize formData = ∅)) as [Hempty|Hne].
  - rewrite cascade_run_nothing by done. intros [= <- <-].
    split; [done|]. eexists. split; [reflexivity|].
    rewrite storeCalls_app, (logs_no_storeCalls _ (skipped_logs _)). auto.
  - rewrite cascade_at by done.
    destruct (collected w fuel folder) as [fs|]; [|done].
    intros [= <- <-]. split; [done|]. eexists. split; [reflexivity|].
    rewrite storeCalls_app, prologue_no_storeCalls, submission_storeCalls.
    cbn [app after store].
    destruct (updatesOf w (normalize formData) fs) as [|u us] eqn:E.
    + split; [cbn; lia|]. intros _. by apply submission_store.
    + split; [cbn; lia | done].
Qed.

Lemma cascade_never_throws_witness :
  Normal tt = Normal tt
  ∧ ∃ tr, after (start tt) (prologue scenarioE 0 ownerForAll [0; 1; 2]
                            ++ (submission scenarioE 0 ownerForAll
                                  [0; 1; 2] tt).1) tt
          = after (start tt) tr tt
          ∧ length (storeCalls tr) ≤ 1
          ∧ (storeCalls tr = [] → tt = tt).
Proof.
  apply (cascade_never_throws scenarioE 0 0 ownerForAll (start tt)).
  rewrite cascade_at by apply ownerForAll_nonempty. reflexivity.
Defined.

(** X6. Every update that reaches the store carries an ownership object
    that is not empty and holds concrete permission levels only: no
    "inherit" or "no change" value and no unparsable text is ever sent. *)
Theorem store_receives_concrete_levels {St} (w : World St) (fuel : nat)
    (folder : ref) (formData : JS.object jsstring) (s : State St)
    (c : Completion unit) (tr : list Event) (st' : St)
    (cls : string) (us : list Update) (u : Update) :
  _cascadeOwnership w fuel folder formData s = Some (c, after s tr st') →
  (cls, us) ∈ storeCalls tr →
  u ∈ us →
  ownership u ≠ ∅
  ∧ ∀ key level, ownership u !! key = Some level → isPermissionLevel level.
Proof.
  intros Hrun Hcall Hu.
  assert (Hlevels : ∀ key level,
            normalize formData !! key = Some level → isPermissionLevel level).
  { intros key level. rewrite normalize_lookup. case_decide; [done|].
    destruct (formData !! key) as [v|]; [|done]. cbn.
    by intros [_ ?]%levelOf_Some. }
  destruct (decide (normalize formData = ∅)) as [Hempty|Hne].
  - rewrite cascade_run_nothing in Hrun by done.
    injection Hrun as _ Htr%app_inv_head _. subst tr.
    rewrite storeCalls_app, (logs_no_storeCalls _ (skipped_logs _)) in Hcall.
    by apply elem_of_nil in Hcall.
  - rewrite cascade_at in Hrun by done.
    destruct (collected w fuel folder) as [fs|]; [|done].
    injection Hrun as _ Htr%app_inv_head _. subst tr.
    rewrite storeCalls_app, prologue_no_storeCalls, submission_storeCalls
      in Hcall. cbn [app] in Hcall.
    assert (Hown : ownership u = normalize formData).
    { pose proof (updatesOf_ownership w (normalize formData) fs) as Hall.
      rewrite Forall_forall in Hall. apply Hall.
      destruct (updatesOf w (normalize formData) fs) as [|u0 us0];
        [by apply elem_of_nil in Hcall|].
      apply list_elem_of_singleton in Hcall. by injection Hcall as _ <-. }
    rewrite Hown. by split.
Qed.

Lemma store_receives_concrete_levels_witness :
  normalize ownerForAll ≠ ∅
  ∧ ∀ key level,
      normalize ownerForAll !! key = Some level → isPermissionLevel level.
Proof.
  apply (store_receives_concrete_levels scenarioB_primary 0 0 ownerForAll
           (start tt) (Normal tt)
           (prologue scenarioB_primary 0 ownerForAll [0; 1; 2]
            ++ (submission scenarioB_primary 0 ownerForAll [0; 1; 2] tt).1)
           tt "Item"
           (updatesOf scenarioB_primary (normalize ownerForAll) [0; 1; 2])
           {| _id := "a"; ownership := normalize ownerForAll |}).
  - rewrite cascade_at by apply ownerForAll_nonempty. reflexivity.
  - rewrite storeCalls_app, prologue_no_storeCalls, submission_storeCalls.
    apply list_elem_of_here.
  - apply list_elem_of_here.
Defined.

(** X7. A [getSubfolders] that throws is not reported to the user. The
    run differs from the run of a world whose [getSubfolders] returns what
    the manual walk finds by one console log, the one of the failure:
    notifications, the batch and the resulting store are the same. *)
Theorem fallback_only_adds_a_log {St} (w1 w2 : World St) (fuel : nat)
    (folder : ref) (formData : JS.object jsstring) (s : State St)
    (err : error) (subs : list ref) :
  objects w1 = objects w2 →
  updateDocuments w1 = updateDocuments w2 →
  getSubfolders w1 folder = inl err →
  _getSubfoldersManual fuel (objects w1) folder = Some subs →
  getSubfolders w2 folder = inr subs →
  normalize formData ≠ ∅ →
  ∃ before rest st',
    _cascadeOwnership w2 fuel folder formData s
    = Some (Normal tt, after s (before ++ rest) st')
    ∧ _cascadeOwnership w1 fuel folder formData s
      = Some (Normal tt,
              after s (before
                       ++ [ConsoleLog (LogGetSubfoldersFailed err)]
                       ++ rest) st')
    ∧ storeCalls before = [].
Proof.
  intros Hobj Hupd Herr Hmanual Hsubs Hne.
  rewrite !cascade_at by done. unfold collected.
  rewrite Herr, Hmanual, Hsubs. cbn [fmap option_fmap option_map].
  exists (flat_map skipped (JS.entries formData)
          ++ [ConsoleLog (LogOwnershipToApply (normalize formData));
              CallGetSubfolders folder]),
    ([ConsoleLog (LogProcessing (length (folder :: subs)))]
     ++ reading w2 (folder :: subs)
     ++ [ConsoleLog (LogTotal (length (updatesOf w2 (normalize formData)
                                         (folder :: subs))))]
     ++ (submission w2 folder formData (folder :: subs) (store s)).1),
    (submission w2 folder formData (folder :: subs) (store s)).2.
  assert (Hsame : ∀ fs,
            updatesOf w1 (normalize formData) fs
            = updatesOf w2 (normalize formData) fs
            ∧ reading w1 fs = reading w2 fs
            ∧ submission w1 folder formData fs (store s)
              = submission w2 folder formData fs (store s)).
  { intros fs.
    assert (H1 : updatesOf w1 (normalize formData) fs
                 = updatesOf w2 (normalize formData) fs)
      by (unfold updatesOf, documentsOf; by rewrite Hobj).
    split_and!; [done| |].
    - unfold reading, documentsOf. by rewrite Hobj.
    - unfold submission. by rewrite H1, Hobj, Hupd. }
  destruct (Hsame (folder :: subs)) as (Hus & Hread & Hsub).
  split_and!.
  - unfold prologue, enumeration. rewrite Hsubs. f_equal. f_equal.
    same_trace.
  - unfold prologue, enumeration. rewrite Herr, Hus, Hread, Hsub.
    f_equal. f_equal. same_trace.
  - rewrite storeCalls_app, (logs_no_storeCalls _ (skipped_logs _)). done.
Qed.

Lemma fallback_only_adds_a_log_witness :
  ∃ before rest st',
    _cascadeOwnership scenarioB_primary 7 0 ownerForAll (start tt)
    = Some (Normal tt, after (start tt) (before ++ rest) st')
    ∧ _cascadeOwnership scenarioB_fallback 7 0 ownerForAll (start tt)
      = Some (Normal tt,
              after (start tt)
                (before
                 ++ [ConsoleLog (LogGetSubfoldersFailed
                                   "folder.getSubfolders is not a function")]
                 ++ rest) st')
    ∧ storeCalls before = [].
Proof.
  apply (fallback_only_adds_a_log scenarioB_fallback scenarioB_primary 7 0
           ownerForAll (start tt)
           "folder.getSubfolders is not a function"%string [1; 2]);
    try reflexivity.
  apply ownerForAll_nonempty.
Defined.

(* ===================================================================== *)
(** ** Form data and the first loop, once more *)
(* ===================================================================== *)

Lemma elem_of_skipped (es : list (string * jsstring)) (e : Event) :
  e ∈ flat_map skipped es ↔
  ∃ k v, (k, v) ∈ es ∧ levelOf v = None ∧ e = ConsoleLog (LogSkipping k v).
Proof.
  rewrite list_elem_of_In, in_flat_map. split.
  - intros ([k v] & Hin%list_elem_of_In & He). unfold skipped in He.
    cbn [fst snd] in He. destruct (levelOf v) eqn:E; [done|].
    destruct He as [<-|[]]. by exists k, v.
  - intros (k & v & Hin & Hl & ->). exists (k, v).
    split; [by apply list_elem_of_In|]. unfold skipped. cbn [fst snd].
    rewrite Hl. by left.
Qed.

Lemma collectFormData_snoc (selects : list Select) (sel : Select) :
  collectFormData (selects ++ [sel]) =
  if decide (sel_name sel = EmptyString) then collectFormData selects
  else JS.set (collectFormData selects) (sel_name sel) (sel_value sel).
Proof. unfold collectFormData. by rewrite fold_left_app. Qed.

(** X8. The first loop accounts for every entry of the form data: an
    entry is either copied to the ownership object, with the parsed
    level, or named with its value in a "Skipping" log; never both, never
    neither, and the loop logs nothing else. *)
Theorem every_entry_is_assigned_or_logged {St} (selects : list Select)
    (s : State St) :
  ∃ logs,
    buildOwnership (collectFormData selects) s
    = Some (Normal (normalize (collectFormData selects)),
            after s logs (store s))
    ∧ (∀ e, e ∈ logs →
         ∃ k v, e = ConsoleLog (LogSkipping k v)
                ∧ collectFormData selects !! k = Some v)
    ∧ ∀ k v, collectFormData selects !! k = Some v →
        (normalize (collectFormData selects) !! k = Some (Number v)
         ∧ ConsoleLog (LogSkipping k v) ∉ logs)
        ∨ (normalize (collectFormData selects) !! k = None
           ∧ ConsoleLog (LogSkipping k v) ∈ logs).
Proof.
  exists (flat_map skipped (JS.entries (collectFormData selects))).
  split_and!.
  - by rewrite buildOwnership_run, <- normalize_fold.
  - intros e (k & v & Hin & _ & ->)%elem_of_skipped. exists k, v.
    split; [done|]. by apply elem_of_map_to_list.
  - intros k v Hk. rewrite normalize_lookup, Hk.
    case_decide as Hproto.
    { subst k. by rewrite collectFormData_proto in Hk. }
    cbn. destruct (levelOf v) as [l|] eqn:El.
    + left. split.
      * by apply levelOf_Some in El as [-> _].
      * intros (k' & v' & _ & Hnone & [= <- <-])%elem_of_skipped.
        congruence.
    + right. split; [done|]. apply elem_of_skipped. exists k, v.
      split_and!; [|done..]. by apply elem_of_map_to_list.
Qed.

(** X9. For any object passed as form data, not only one the listener
    built: a key is in the ownership object exactly when it is not
    ["__proto__"] and its value parses to a concrete level. An own
    property named ["__proto__"] is never copied, whatever its value. *)
Theorem normalize_any_object (formData : JS.object jsstring) (key : string)
    (level : number) :
  normalize formData !! key = Some level ↔
  key ≠ "__proto__"%string
  ∧ ∃ value, formData !! key = Some value
             ∧ Number value = level ∧ isPermissionLevel level.
Proof.
  rewrite normalize_lookup. case_decide as Hkey.
  - split; [done|]. by intros [? _].
  - destruct (formData !! key) as [value|]; cbn.
    + rewrite levelOf_Some. split.
      * intros [? ?]. split; [done|]. by exists value.
      * by intros (_ & ? & [= <-] & ? & ?).
    + split; [done|]. by intros (_ & ? & ? & _).
Qed.

(** X10. The form data holds, for every name, the value of the last
    control of that name; a control without a name, or named
    ["__proto__"], leaves no entry. *)
Theorem form_data_keeps_last_control (selects : list Select) (key : string) :
  collectFormData selects !! key =
  if decide (key = EmptyString ∨ key = "__proto__"%string) then None
  else sel_value <$> last (filter (λ sel, sel_name sel = key) selects).
Proof.
  induction selects as [|sel selects IH] using rev_ind.
  - cbn. by case_decide.
  - rewrite collectFormData_snoc, filter_app.
    destruct (decide (sel_name sel = key)) as [<-|Hne].
    + rewrite filter_cons_True, filter_nil, last_snoc by done.
      change (sel_value <$> Some sel) with (Some (sel_value sel)).
      destruct (decide (sel_name sel = EmptyString)) as [He|He].
      { rewrite IH. repeat (rewrite decide_True by (left; exact He)). done. }
      rewrite set_lookup.
      destruct (decide (sel_name sel = "__proto__"%string)) as [Hp|Hp].
      * rewrite decide_False by tauto. rewrite IH.
        repeat (rewrite decide_True by (right; exact Hp)). done.
      * rewrite decide_True by done. repeat (rewrite decide_False by tauto).
        done.
    + rewrite filter_cons_False, filter_nil, app_nil_r by done.
      destruct (decide (sel_name sel = EmptyString)); [done|].
      rewrite set_lookup. repeat (rewrite decide_False by tauto). done.
Qed.

(* ===================================================================== *)
(** ** The submit listener *)
(* ===================================================================== *)

(** X11. A submission cascades only when the box is present and checked
    and the document is a [Folder]; otherwise the listener logs once and
    leaves the store alone. When it cascades it first logs the form data
    and waits 250 ms, then runs the cascade on the form data of the
    controls. Its promise never rejects. *)
Theorem submission_cascades_when_checked_on_folder {St} (w : World St)
    (fuel : nat) (checkbox : option bool) (doc : option ref)
    (selects : list Select) (st : St)
    (c : Completion unit) (evs : list HandlerEvent) (st' : St) :
  onSubmit w fuel checkbox doc selects st = Some (c, evs, st') →
  c = Normal tt
  ∧ ((checkbox = Some true
      ∧ ∃ folder tr,
          doc = Some folder
          ∧ instanceofFolder (objects w folder) = true
          ∧ _cascadeOwnership w fuel folder (collectFormData selects)
                              (start st)
            = Some (Normal tt, {| trace := tr; store := st' |})
          ∧ evs = [HandlerConsoleLog
                     (LogFormSubmitted checkbox (name ∘ objects w <$> doc));
                   HandlerConsoleLog (LogFormData (collectFormData selects));
                   SetTimeout 250]
                  ++ map Cascade tr)
     ∨ ((checkbox ≠ Some true ∨ isFolderDocument (objects w) doc = false)
        ∧ evs = [HandlerConsoleLog
                   (LogFormSubmitted checkbox (name ∘ objects w <$> doc))]
        ∧ st' = st)).
Proof.
  unfold onSubmit.
  destruct checkbox as [[|]|]; cbn [default negb orb].
  2, 3: intros [= <- <- <-]; split; [done|]; right; split_and!;
        [by left | done..].
  destruct doc as [folder|]; cbn [isFolderDocument].
  2: { intros [= <- <- <-]. split; [done|]. right. split_and!; [by right|done..]. }
  destruct (instanceofFolder (objects w folder)) eqn:E; cbn [negb].
  2: { intros [= <- <- <-]. split; [done|]. right. split_and!; [by right|done..]. }
  destruct (_cascadeOwnership w fuel folder (collectFormData selects) _)
    as [[c0 s0]|] eqn:Hrun; [|done].
  intros [= <- <- <-].
  assert (c0 = Normal tt) as -> by (by eapply cascade_ends_normally).
  split; [done|]. left. split; [done|]. exists folder, (trace s0).
  split_and!; [done..| |done]. unfold start. rewrite Hrun. by destruct s0.
Qed.

Lemma submission_cascades_witness :
  Normal tt = Normal tt
  ∧ ((Some true = Some true
      ∧ ∃ folder tr,
          Some 0 = Some folder
          ∧ instanceofFolder (objects scenarioB_fallback folder) = true
          ∧ _cascadeOwnership scenarioB_fallback 0 folder
              (collectFormData [select "default" "-1"; select "user1" "-10";
                                select "user2" "inherit"])
              (start tt)
            = Some (Normal tt, {| trace := tr; store := tt |})
          ∧ [HandlerConsoleLog (LogFormSubmitted (Some true) (Some "Root"%string));
             HandlerConsoleLog (LogFormData scenarioC);
             SetTimeout 250]
            ++ map Cascade (flat_map skipped (JS.entries scenarioC)
                            ++ [ConsoleLog LogNothingToApply])
            = [HandlerConsoleLog
                 (LogFormSubmitted (Some true)
                    (name ∘ objects scenarioB_fallback <$> Some 0));
               HandlerConsoleLog
                 (LogFormData
                    (collectFormData [select "default" "-1";
                                      select "user1" "-10";
                                      select "user2" "inherit"]));
               SetTimeout 250]
              ++ map Cascade tr)
     ∨ ((Some true ≠ Some true
         ∨ isFolderDocument (objects scenarioB_fallback) (Some 0) = false)
        ∧ [HandlerConsoleLog (LogFormSubmitted (Some true) (Some "Root"%string));
           HandlerConsoleLog (LogFormData scenarioC);
           SetTimeout 250]
          ++ map Cascade (flat_map skipped (JS.entries scenarioC)
                          ++ [ConsoleLog LogNothingToApply])
          = [HandlerConsoleLog
               (LogFormSubmitted (Some true)
                  (name ∘ objects scenarioB_fallback <$> Some 0))]
        ∧ tt = tt)).
Proof.
  apply (submission_cascades_when_checked_on_folder scenarioB_fallback 0
           (Some true) (Some 0)
           [select "default" "-1"; select "user1" "-10";
            select "user2" "inherit"] tt).
  by vm_compute.
Defined.

(* ===================================================================== *)
(** ** The release tool: command-line arguments *)
(* ===================================================================== *)

Lemma startsWithDashes_slice (a : string) :
  startsWithDashes a = true → a = String.append "--" (slice 2 a).
Proof.
  unfold startsWithDashes.
  destruct a as [|c1 [|c2 a]];
    cbn [String.prefix String.append slice]; try done.
  - by destruct (ascii_dec "-" c1).
  - destruct (ascii_dec "-" c1) as [<-|]; [|done].
    destruct (ascii_dec "-" c2) as [<-|]; done.
Qed.

Lemma startsWithDashes_append (k : string) :
  startsWithDashes (String.append "--" k) = true.
Proof.
  unfold startsWithDashes. cbn [String.append String.prefix].
  destruct (ascii_dec "-" "-"); [|done]. by destruct k.
Qed.

Lemma slice_append (k : string) : slice 2 (String.append "--" k) = k.
Proof. reflexivity. Qed.

Lemma parseLoop_option (a : string) (rest : list string)
    (out : JS.object ArgValue) :
  startsWithDashes a = true →
  parseLoop (a :: rest) out =
  match rest with
  | next :: rest' =>
      if truthy next && negb (startsWithDashes next)
      then parseLoop rest' (JS.set out (slice 2 a) (ArgString next))
      else parseLoop rest (JS.set out (slice 2 a) ArgTrue)
  | [] => parseLoop rest (JS.set out (slice 2 a) ArgTrue)
  end.
Proof. intros Ha. cbn [parseLoop]. by rewrite Ha. Qed.

Lemma commandLine_head (options : list (string * ArgValue)) :
  match commandLine options with
  | [] => True
  | next :: _ => startsWithDashes next = true
  end.
Proof.
  destruct options as [|[k [s|]] ?]; [exact I| |];
    apply startsWithDashes_append.
Qed.

Lemma parseLoop_commandLine (options : list (string * ArgValue))
    (out : JS.object ArgValue) :
  Forall writable options →
  parseLoop (commandLine options) out
  = fold_left (λ m '(k, v), <[k := v]> m) options out.
Proof.
  intros Hw. revert out.
  induction Hw as [|[k v] options [Hk Hv] _ IH]; intros out; [done|].
  cbn [fst snd] in Hk, Hv.
  assert (Hset : ∀ x, JS.set out k x = <[k := x]> out).
  { intros x. unfold JS.set. by rewrite decide_False. }
  cbn [fold_left]. rewrite <- IH, <- Hset.
  destruct v as [s|]; cbn [commandLine flat_map app];
    fold (commandLine options);
    rewrite parseLoop_option, slice_append by apply startsWithDashes_append.
  - destruct Hv as [Hs Hd]. by rewrite Hs, Hd.
  - pose proof (commandLine_head options) as Hh.
    destruct (commandLine options) as [|next rest] eqn:E; [done|].
    by rewrite Hh, andb_false_r.
Qed.

(** X12. [parseArgs] reads back a command line: for options written as
    [--key value] or [--key], whose values are not empty and do not
    themselves start with two dashes, it returns every option with its
    value, a later occurrence of a key replacing an earlier one, whatever
    the first two arguments are. *)
Theorem parseArgs_reads_command_line (node script : string)
    (options : list (string * ArgValue)) :
  Forall writable options →
  parseArgs (node :: script :: commandLine options)
  = fold_left (λ m '(k, v), <[k := v]> m) options ∅.
Proof. intros Hw. unfold parseArgs. by apply parseLoop_commandLine. Qed.

Lemma parseArgs_reads_command_line_witness :
  parseArgs ["node"; "build_foundry_release.js"; "--version"; "1.2.0";
             "--dry"; "--repo"; "owner/name"]%string
  = {[ "version"%string := ArgString "1.2.0"; "dry"%string := ArgTrue;
       "repo"%string := ArgString "owner/name" ]}.
Proof.
  etrans.
  - apply (parseArgs_reads_command_line "node" "build_foundry_release.js"
             [("version", ArgString "1.2.0"); ("dry", ArgTrue);
              ("repo", ArgString "owner/name")]%string).
    repeat constructor; by vm_compute.
  - by vm_compute.
Defined.

(** Where an entry of the result comes from, for the loop started on
    [rest] with the object [out]. *)
Lemma parseLoop_lookup (n : nat) :
  ∀ rest out key v,
    length rest ≤ n →
    parseLoop rest out !! key = Some v →
    out !! key = Some v
    ∨ (key ≠ "__proto__"%string
       ∧ ∃ before following,
           rest = before ++ String.append "--" key :: following
           ∧ match v with
             | ArgString s =>
                 ∃ following', following = s :: following'
                               ∧ truthy s = true
                               ∧ startsWithDashes s = false
             | ArgTrue =>
                 match following with
                 | [] => True
                 | next :: _ =>
                     truthy next = false ∨ startsWithDashes next = true
                 end
             end).
Proof.
  induction n as [|n IH]; intros rest out key v Hlen.
  { destruct rest; [by left | cbn in Hlen; lia]. }
  destruct rest as [|a rest']; [by left|]. cbn [length] in Hlen.
  assert (Hlater : ∀ skip out',
            length (drop skip rest') ≤ n →
            parseLoop (drop skip rest') out' !! key = Some v →
            (out' !! key = Some v
             ∨ key ≠ "__proto__"%string
               ∧ ∃ before following,
                   a :: rest' = before ++ String.append "--" key :: following
                   ∧ match v with
                     | ArgString s =>
                         ∃ following', following = s :: following'
                                       ∧ truthy s = true
                                       ∧ startsWithDashes s = false
                     | ArgTrue =>
                         match following with
                         | [] => True
                         | next :: _ =>
                             truthy next = false
                             ∨ startsWithDashes next = true
                         end
                     end)).
  { intros skip out' Hl [H|(Hp & before & following & Hrest & Hv)]%IH;
      [by left| |done].
    right. split; [done|].
    exists (a :: take skip rest' ++ before), following. split; [|done].
    rewrite <- (take_drop skip rest') at 1. rewrite Hrest.
    cbn [app]. by rewrite <- app_assoc. }
  assert (Hstep : ∀ skip out',
            parseLoop (drop skip rest') out' !! key = Some v →
            _) by (intros skip out'; apply Hlater; rewrite length_drop; lia).
  cbn [parseLoop]. destruct (startsWithDashes a) eqn:Ea; cbn [negb].
  2: { intros H. by apply (Hstep 0 out). }
  assert (Hset : ∀ x, JS.set out (slice 2 a) x !! key = Some v →
            out !! key = Some v
            ∨ (key ≠ "__proto__"%string ∧ slice 2 a = key ∧ x = v)).
  { intros x. rewrite set_lookup. case_decide as Hk; [|by left].
    intros [= <-]. right. destruct Hk as [<- ?]. done. }
  assert (Ha : a = String.append "--" (slice 2 a))
    by by apply startsWithDashes_slice.
  destruct rest' as [|next rest''].
  - intros [H|H]%(Hstep 0); [|by right].
    apply Hset in H as [H|(Hp & <- & <-)]; [by left|].
    right. split; [done|]. exists [], []. by rewrite <- Ha.
  - destruct (truthy next && negb (startsWithDashes next)) eqn:En.
    + apply andb_prop in En as [Ht Hd%negb_true_iff].
      intros [H|H]%(Hstep 1); [|by right].
      apply Hset in H as [H|(Hp & <- & <-)]; [by left|].
      right. split; [done|]. exists [], (next :: rest'').
      rewrite <- Ha. split; [done|]. by exists rest''.
    + intros [H|H]%(Hstep 0); [|by right].
      apply Hset in H as [H|(Hp & <- & <-)]; [by left|].
      right. split; [done|]. exists [], (next :: rest'').
      rewrite <- Ha. split; [done|].
      apply andb_false_iff in En as [?|?%negb_false_iff]; auto.
Qed.

(** X13. Every entry of the object [parseArgs] returns comes from an
    argument [--key] after the first two; a string value is the argument
    that follows it, which is not empty and does not start with two
    dashes; the value [true] means that the option is the last argument
    or is followed by an empty argument or by another option. Arguments
    that are not options are passed over, and an option named
    [--__proto__] leaves no entry. *)
Theorem parseArgs_entries_come_from_options (argv : list string)
    (key : string) (v : ArgValue) :
  parseArgs argv !! key = Some v →
  key ≠ "__proto__"%string
  ∧ ∃ before following,
      drop 2 argv = before ++ String.append "--" key :: following
      ∧ match v with
        | ArgString s =>
            ∃ following', following = s :: following'
                          ∧ truthy s = true ∧ startsWithDashes s = false
        | ArgTrue =>
            match following with
            | [] => True
            | next :: _ => truthy next = false ∨ startsWithDashes next = true
            end
        end.
Proof.
  unfold parseArgs.
  intros [H|H]%(parseLoop_lookup (length (drop 2 argv))); [|done..].
  by rewrite lookup_empty in H.
Qed.

Lemma parseArgs_entries_witness :
  "zip" ≠ "__proto__"%string
  ∧ ∃ before following,
      ["out"; "--zip"; EmptyString; "--tag"; "v1"]%string
      = before ++ String.append "--" "zip" :: following
      ∧ match following with
        | [] => True
        | next :: _ => truthy next = false ∨ startsWithDashes next = true
        end.
Proof.
  apply (parseArgs_entries_come_from_options
           ["node"; "tool.js"; "out"; "--zip"; EmptyString; "--tag"; "v1"]%string
           "zip" ArgTrue).
  by vm_compute.
Defined.

(* ===================================================================== *)
(** ** The release tool: names and addresses *)
(* ===================================================================== *)

Lemma prefix_append (p r : string) : String.prefix p (p +:+ r) = true.
Proof.
  induction p as [|a p IH]; simpl.
  - by destruct r.
  - destruct (ascii_dec a a); [done | congruence].
Qed.

Lemma slice_length_append (p r : string) :
  slice (String.length p) (p +:+ r) = r.
Proof. induction p as [|a p IH]; [by destruct r | done]. Qed.

Lemma stripTrailingSlash_slash (r : string) :
  stripTrailingSlash (r +:+ "/") = r.
Proof.
  induction r as [|c r IH]; [done|].
  destruct r as [|c' r]; [done|].
  change (String c (stripTrailingSlash (String c' r +:+ "/"))
          = String c (String c' r)).
  by rewrite IH.
Qed.

Lemma stripTrailingSlash_other (r : string) :
  lastChar r ≠ Some "/"%char → stripTrailingSlash r = r.
Proof.
  induction r as [|c r IH]; intros Hr; [done|].
  cbn [stripTrailingSlash lastChar] in *. destruct r as [|c' r].
  - destruct (Ascii.eqb_spec c "/") as [->|]; done.
  - f_equal. by apply IH.
Qed.

Lemma stripGitHub_https (rest : string) :
  stripGitHub ("https://github.com/" +:+ rest) = rest.
Proof.
  unfold stripGitHub. rewrite prefix_append.
  apply (slice_length_append "https://github.com/").
Qed.

Lemma stripGitHub_http (rest : string) :
  stripGitHub ("http://github.com/" +:+ rest) = rest.
Proof.
  unfold stripGitHub.
  assert (H : String.prefix "https://github.com/"
                ("http://github.com/" +:+ rest) = false) by reflexivity.
  rewrite H, prefix_append.
  apply (slice_length_append "http://github.com/").
Qed.

(** X14. When [module.json] names the project at
    [https://github.com/<repo>], with [http] or [https] and with or
    without one slash at the end, and no [--repo] is given, the release
    is addressed at that repository: the manifest address is
    [https://github.com/<repo>/releases/latest/download/module.json] and
    the project address is [https://github.com/<repo>]. *)
Theorem release_addresses_follow_module_url (args : JS.object ArgValue)
    (modJson : ModuleJson) (scheme repo slash : string) :
  scheme = "http"%string ∨ scheme = "https"%string →
  slash = EmptyString ∨ slash = "/"%string →
  truthy repo = true →
  lastChar repo ≠ Some "/"%char →
  mod_url modJson = Some (scheme +:+ "://github.com/" +:+ repo +:+ slash) →
  args !! "repo"%string = None →
  repoOf args modJson = ArgString repo
  ∧ manifestUrl (repoOf args modJson)
    = "https://github.com/" +:+ repo
      +:+ "/releases/latest/download/module.json"
  ∧ projectUrl (repoOf args modJson) = "https://github.com/" +:+ repo.
Proof.
  intros Hscheme Hslash Hrepo Hend Hurl Hargs.
  assert (Hfrom : repoFromUrl modJson = repo).
  { unfold repoFromUrl. rewrite Hurl.
    change (default EmptyString
              (Some (scheme +:+ "://github.com/" +:+ repo +:+ slash)))
      with (scheme +:+ "://github.com/" +:+ repo +:+ slash).
    assert (Hstrip : stripGitHub (scheme +:+ "://github.com/" +:+ repo +:+ slash)
                     = repo +:+ slash).
    { destruct Hscheme as [-> | ->].
      - apply (stripGitHub_http (repo +:+ slash)).
      - apply (stripGitHub_https (repo +:+ slash)). }
    rewrite Hstrip. destruct Hslash as [-> | ->].
    - assert (repo +:+ EmptyString = repo) as ->.
      { clear. induction repo as [|c r IH]; [done|].
        change (String c r +:+ EmptyString) with (String c (r +:+ EmptyString)).
        by f_equal. }
      by apply stripTrailingSlash_other.
    - apply stripTrailingSlash_slash. }
  assert (Hof : repoOf args modJson = ArgString repo).
  { unfold repoOf. rewrite Hargs, Hfrom, Hrepo. done. }
  rewrite Hof. done.
Qed.

Lemma release_addresses_witness :
  repoOf ∅ {| mod_id := Some "cascade-folder-permissions"%string;
              mod_version := Some "0.1.0"%string;
              mod_url := Some "https://github.com/bruceamoser/foundry-apply-permissions/"%string |}
  = ArgString "bruceamoser/foundry-apply-permissions"
  ∧ manifestUrl
      (repoOf ∅ {| mod_id := Some "cascade-folder-permissions"%string;
                   mod_version := Some "0.1.0"%string;
                   mod_url := Some "https://github.com/bruceamoser/foundry-apply-permissions/"%string |})
    = "https://github.com/" +:+ "bruceamoser/foundry-apply-permissions"
      +:+ "/releases/latest/download/module.json"
  ∧ projectUrl
      (repoOf ∅ {| mod_id := Some "cascade-folder-permissions"%string;
                   mod_version := Some "0.1.0"%string;
                   mod_url := Some "https://github.com/bruceamoser/foundry-apply-permissions/"%string |})
    = "https://github.com/" +:+ "bruceamoser/foundry-apply-permissions".
Proof.
  apply (release_addresses_follow_module_url ∅ _ "https"
           "bruceamoser/foundry-apply-permissions" "/").
  - by right.
  - by right.
  - reflexivity.
  - by vm_compute.
  - reflexivity.
  - reflexivity.
Defined.




